(** * Chunked parallel bulk loader: a shallow embedding

    The two programs under verification are

    - [src/Files/bulk_insert_method.py]            (module [BulkInsert]),
    - [src/Files/bulk_insert_method_with_prog_bar.py] (module [ProgBar]).

    Python values, strings, lists, dictionaries and exceptions are embedded
    in module [Py]; the calls the programs make on the database client are
    embedded as a trace of events against an oracle that decides, call by
    call, whether the client returns or raises. *)

From Stdlib Require Import List String Ascii ZArith Lia Bool Arith PeanoNat.
From Stdlib Require Import DecimalString.
Import ListNotations.

Local Open Scope string_scope.
Local Open Scope list_scope.

(* ================================================================== *)
(** * Python builtins used by the programs *)
(* ================================================================== *)

Module Py.

(** ** Characters and strings

    A Python [str] is embedded as a [string]; each [ascii] stands for the
    code point of the same number (0 to 255). *)

Definition dquote : ascii := "034"%char.
Definition newline : ascii := "010"%char.
Definition carriage : ascii := "013"%char.

Definition chr (c : ascii) : string := String c EmptyString.

Definition dq : string := chr dquote.
Definition nl : string := chr newline.
Definition cr : string := chr carriage.

(** [str.isspace] on one code point, which is also what [\s] matches in a
    [str] pattern: TAB LF VT FF CR, FS GS RS US, SPACE, NEL and NBSP. *)
Definition is_space (c : ascii) : bool :=
  let n := nat_of_ascii c in
  (((9 <=? n) && (n <=? 13)) || ((28 <=? n) && (n <=? 32))
   || (n =? 133) || (n =? 160))%nat.

(** [str.lower] on one code point: A-Z, and the capital letters of the
    Latin-1 block (all of 192..222 but the multiplication sign 215). *)
Definition lower_char (c : ascii) : ascii :=
  let n := nat_of_ascii c in
  if (((65 <=? n) && (n <=? 90))
      || ((192 <=? n) && (n <=? 222) && negb (n =? 215)))%nat
  then ascii_of_nat (n + 32) else c.

Fixpoint lower (s : string) : string :=
  match s with
  | EmptyString => EmptyString
  | String c r => String (lower_char c) (lower r)
  end.

(** [s.replace(old, new)] for a one-character [old]. *)
Fixpoint replace_char (old : ascii) (new : string) (s : string) : string :=
  match s with
  | EmptyString => EmptyString
  | String c r =>
      (if Ascii.eqb c old then new else chr c) ++ replace_char old new r
  end.

Fixpoint lstrip (s : string) : string :=
  match s with
  | EmptyString => EmptyString
  | String c r => if is_space c then lstrip r else s
  end.

Fixpoint rstrip (s : string) : string :=
  match s with
  | EmptyString => EmptyString
  | String c r =>
      match rstrip r with
      | EmptyString => if is_space c then EmptyString else chr c
      | r' => String c r'
      end
  end.

(** [s.strip()] *)
Definition strip (s : string) : string := rstrip (lstrip s).

Fixpoint all_space (s : string) : bool :=
  match s with
  | EmptyString => true
  | String c r => is_space c && all_space r
  end.

(** [sep.join(parts)] *)
Fixpoint join (sep : string) (parts : list string) : string :=
  match parts with
  | [] => EmptyString
  | [p] => p
  | p :: rest => p ++ sep ++ join sep rest
  end.

(** ** Values *)

Inductive value : Type :=
| PyNone
| PyBool (b : bool)
| PyInt (z : Z)
| PyStr (s : string).

(** [str(x)] *)
Definition str (x : value) : string :=
  match x with
  | PyNone => "None"
  | PyBool true => "True"
  | PyBool false => "False"
  | PyInt z => NilZero.string_of_int (Z.to_int z)
  | PyStr s => s
  end.

(** ** Exceptions and results *)

Inductive exn : Type :=
| IndexError (msg : string)
| ValueError (msg : string)
| DatabaseError (msg : string)            (* raised by the client library *)
| RuntimeWarning (cause : exn)            (* [raise RuntimeWarning from e] *)
| RuntimeError (msg : string) (cause : exn).  (* [raise RuntimeError(msg) from e] *)

(** [str(e)] *)
Definition exn_str (e : exn) : string :=
  match e with
  | IndexError m | ValueError m | DatabaseError m => m
  | RuntimeWarning _ => EmptyString
  | RuntimeError m _ => m
  end.

Inductive result (A : Type) : Type :=
| Ok (a : A)
| Raise (e : exn).
Arguments Ok {A} a.
Arguments Raise {A} e.

(** ** Lists: [range], slices and [zip] *)

(** [range(start, stop, step)]: [None] is the [ValueError] of a zero step;
    otherwise the length is computed first and item [k] is
    [start + k * step]. *)
Definition range_length (start stop step : Z) : Z :=
  if (0 <? step)%Z then
    if (start <? stop)%Z then ((stop - start - 1) / step + 1)%Z else 0%Z
  else
    if (stop <? start)%Z then ((start - stop - 1) / (- step) + 1)%Z else 0%Z.

Definition range (start stop step : Z) : option (list Z) :=
  if (step =? 0)%Z then None
  else Some (map (fun k => (start + Z.of_nat k * step)%Z)
                 (seq 0 (Z.to_nat (range_length start stop step)))).

(** The bounds of a slice are clamped into [0, len]; a negative bound
    counts from the end. *)
Definition clamp (len i : Z) : Z :=
  if (i <? 0)%Z then Z.max 0 (i + len) else Z.min i len.

(** [v[i:j]] *)
Definition slice {A : Type} (v : list A) (i j : Z) : list A :=
  let len := Z.of_nat (List.length v) in
  let lo := clamp len i in
  let hi := clamp len j in
  firstn (Z.to_nat (hi - lo)) (skipn (Z.to_nat lo) v).

(** [zip(a, b)] with a combining function: stops at the shorter one. *)
Fixpoint zip_with {A B C : Type} (f : A -> B -> C)
         (a : list A) (b : list B) : list C :=
  match a, b with
  | x :: a', y :: b' => f x y :: zip_with f a' b'
  | _, _ => []
  end.

(** [zip] applied to an unpacked list of columns: the rows, as many as the shortest
    column has items; no column, no row. *)
Fixpoint zip_star {A : Type} (cols : list (list A)) : list (list A) :=
  match cols with
  | [] => []
  | c :: rest =>
      match rest with
      | [] => map (fun x => [x]) c
      | _ :: _ => zip_with cons c (zip_star rest)
      end
  end.

(** ** Dictionaries

    A [dict] keeps its items in insertion order; assigning to a key that is
    present replaces the value in place. *)

Definition dict (V : Type) : Type := list (string * V).

Definition keys {V : Type} (d : dict V) : list string := map fst d.
Definition values {V : Type} (d : dict V) : list V := map snd d.

Fixpoint dict_set {V : Type} (d : dict V) (k : string) (v : V) : dict V :=
  match d with
  | [] => [(k, v)]
  | (k', v') :: r =>
      if String.eqb k' k then (k', v) :: r else (k', v') :: dict_set r k v
  end.

(** [dict(pairs)] *)
Definition dict_of {V : Type} (pairs : list (string * V)) : dict V :=
  fold_left (fun d kv => dict_set d (fst kv) (snd kv)) pairs [].

(** [d.get(k)] *)
Fixpoint dict_get {V : Type} (k : string) (d : dict V) : option V :=
  match d with
  | [] => None
  | (k', v) :: r => if String.eqb k' k then Some v else dict_get k r
  end.

(** [repr(s)] of a [str]: single quotes unless the text holds a single
    quote and no double quote; backslash, the chosen quote, TAB, LF and CR
    by their escapes, other code points that are not printable as \xNN. *)
Definition squote : ascii := "039"%char.
Definition backslash : ascii := "092"%char.

Fixpoint contains (c : ascii) (s : string) : bool :=
  match s with
  | EmptyString => false
  | String x r => Ascii.eqb x c || contains c r
  end.

Definition hex_digit (n : nat) : ascii :=
  if (n <? 10)%nat then ascii_of_nat (48 + n) else ascii_of_nat (87 + n).

Definition is_printable (c : ascii) : bool :=
  let n := nat_of_ascii c in
  (((32 <=? n) && (n <? 127)) || ((161 <=? n) && negb (n =? 173)))%nat.

Definition repr_char (quote c : ascii) : string :=
  if Ascii.eqb c quote || Ascii.eqb c backslash then String backslash (chr c)
  else if Ascii.eqb c "009"%char then String backslash "t"
  else if Ascii.eqb c newline then String backslash "n"
  else if Ascii.eqb c carriage then String backslash "r"
  else if is_printable c then chr c
  else String backslash
         (String "x"%char
            (String (hex_digit (nat_of_ascii c / 16))
               (chr (hex_digit (nat_of_ascii c mod 16))))).

Fixpoint repr_body (quote : ascii) (s : string) : string :=
  match s with
  | EmptyString => EmptyString
  | String c r => repr_char quote c ++ repr_body quote r
  end.

Definition repr_str (s : string) : string :=
  let quote :=
    if contains squote s && negb (contains dquote s) then dquote else squote in
  chr quote ++ repr_body quote s ++ chr quote.

(** [str(d.keys())], the text an f-string puts for [{d.keys()}]. *)
Definition str_dict_keys {V : Type} (d : dict V) : string :=
  "dict_keys([" ++ join ", " (map repr_str (keys d)) ++ "])".

End Py.

(* ================================================================== *)
(** * Effects: printed lines and calls on the database client *)
(* ================================================================== *)

Module Eff.
Import Py.

(** The calls the programs make on the client library.  [CopyEnter] and
    [CopyExit] are the two ends of [with cur.copy(sql) as writer], and
    [ConnExit] is the end of [with connect(...) as conn]; the flag of an
    exit tells whether the block is left by an exception. *)
Inductive call : Type :=
| Connect
| Cursor
| CopyEnter (sql : string)
| Write (data : string)
| CopyExit (failed : bool)
| Commit
| Rollback
| ConnExit (failed : bool).

Inductive event : Type :=
| Print (line : string)
| Called (c : call) (raised : option exn).

(** The client is outside the program: an oracle tells, for each call,
    whether it returns ([None]) or raises. *)
Definition oracle : Type := call -> option exn.

(** A computation yields the events it caused, in order, and returns a
    value or raises. *)
Definition M (A : Type) : Type := (list event * result A)%type.

Definition ret {A : Type} (a : A) : M A := ([], Ok a).

Definition raise {A : Type} (e : exn) : M A := ([], Raise e).

Definition bind {A B : Type} (m : M A) (f : A -> M B) : M B :=
  match m with
  | (t, Ok a) => let (t', r) := f a in ((t ++ t')%list, r)
  | (t, Raise e) => (t, Raise e)
  end.

Notation "x <- m ;; k" := (bind m (fun x => k))
  (at level 61, m at next level, right associativity).
Notation "m ;; k" := (bind m (fun _ => k))
  (at level 61, right associativity).

Definition print (line : string) : M unit := ([Print line], Ok tt).

Definition do_call (db : oracle) (c : call) : M unit :=
  ([Called c (db c)],
   match db c with None => Ok tt | Some e => Raise e end).

(** [try: m  except Exception as e: h e] *)
Definition try_except {A : Type} (m : M A) (h : exn -> M A) : M A :=
  match m with
  | (t, Ok a) => (t, Ok a)
  | (t, Raise e) => let (t', r) := h e in ((t ++ t')%list, r)
  end.

(** [with enter as x: body x]: the exit runs on both ways out of the body,
    does not swallow the body's exception, and may raise its own. *)
Definition with_ {A B : Type}
    (enter : M A) (exit : bool -> M unit) (body : A -> M B) : M B :=
  x <- enter ;;
  match body x with
  | (t, Ok b) => (t, Ok tt) ;; exit false ;; ret b
  | (t, Raise e) =>
      match exit true with
      | (t', Ok _) => ((t ++ t')%list, Raise e)
      | (t', Raise e') => ((t ++ t')%list, Raise e')
      end
  end.

(** What a trace holds: commits that went through, and calls of commit and
    of rollback. *)
Definition is_commit_done (ev : event) : bool :=
  match ev with Called Commit None => true | _ => false end.


Definition is_rollback_call (ev : event) : bool :=
  match ev with Called Rollback _ => true | _ => false end.

Definition is_connect_call (ev : event) : bool :=
  match ev with Called Connect _ => true | _ => false end.

Definition count (p : event -> bool) (t : list event) : nat :=
  List.length (filter p t).

End Eff.

(* ================================================================== *)
(** * The code the two files have in common *)
(* ================================================================== *)

Module Common.
Import Py Eff.

(** A table in the form [to_dict(orient='list')] gives it and
    [bulk_publish] receives it: column name to the list of its values. *)
Definition table : Type := dict (list value).

(** The body of the [try] of [chunk_data], the same text in both files,
    from [keys = list(data.keys())] on. *)
Definition chunk_body (data_dict : table) (chunk_size : Z) : result (list table) :=
  let keys := keys data_dict in
  let values := values data_dict in
  match values with
  | [] => Raise (IndexError "list index out of range")
  | v0 :: _ =>
      match range 0 (Z.of_nat (List.length v0)) chunk_size with
      | None => Raise (ValueError "range() arg 3 must not be zero")
      | Some idx =>
          Ok (map (fun i =>
                     let chunk_keys := keys in
                     let chunk_values :=
                       map (fun v => slice v i (i + chunk_size)%Z) values in
                     dict_of (combine chunk_keys chunk_values))
                  idx)
      end
  end.

(** [comp = re.compile(r"^\s*(''|nan|N/A|NULL|NAT)\s*$", re.IGNORECASE)].
    The first alternative is two apostrophes. *)
Definition comp_alternatives : list string :=
  [String squote (chr squote); "nan"; "N/A"; "NULL"; "NAT"].

(** [pat] read at the head of [s] without regard to case: what is left. *)
Fixpoint match_ignorecase (pat s : string) : option string :=
  match pat, s with
  | EmptyString, _ => Some s
  | String p pat', String c s' =>
      if Ascii.eqb (lower_char p) (lower_char c)
      then match_ignorecase pat' s' else None
  | String _ _, EmptyString => None
  end.

Definition comp_match (s : string) : bool :=
  existsb (fun alt =>
             match match_ignorecase alt (lstrip s) with
             | Some rest => all_space rest
             | None => false
             end)
          comp_alternatives.

(** [comp.sub('', s)]: the pattern is anchored at both ends, so it matches
    the whole of [s] or nothing. *)
Definition comp_sub (s : string) : string :=
  if comp_match s then EmptyString else s.

(** The local function [cln] of [insert]. *)
Definition cln (x : value) : string :=
  match x with
  | PyNone => EmptyString
  | _ => lower (comp_sub (strip (replace_char dquote (dq ++ dq) (str x))))
  end.

(** One field of the payload:
    [comp.sub('', cln(col)).replace('\n', '').replace('\r', '')]. *)
Definition field (col : value) : string :=
  replace_char carriage EmptyString
    (replace_char newline EmptyString (comp_sub (cln col))).

(** [val] of [insert]. *)
Definition payload (chunk : table) : string :=
  join nl (map (fun row => join "|" (map field row))
               (zip_star (values chunk))).

End Common.

(* ================================================================== *)
(** * src/Files/bulk_insert_method.py *)
(* ================================================================== *)

Module BulkInsert.
Import Py Eff Common.

Definition BULK_WORKERS : nat := 4.

(** A [pandas.DataFrame]: its columns in order, each with its values.
    [to_dict(orient='list')] builds a [dict] from them. *)
Definition dataframe : Type := list (string * list value).

Definition to_dict_list (df : dataframe) : table := dict_of df.

(** [connect(tenant)]: one call of [pg.connect]; the parameters it passes
    are settings of the installation. *)
Definition connect (db : oracle) (tenant : string) : M unit :=
  do_call db Connect.

Definition chunk_data (df : dataframe) (chunk_size : Z) : M (list table) :=
  match chunk_body (to_dict_list df) chunk_size with
  | Ok chunked_data => ret chunked_data
  | Raise e => print (exn_str e) ;; raise (RuntimeWarning e)
  end.

(** [col] of [insert]: [x.replace('order', '"order"')] is only applied to
    [x == 'order'], where it yields the quoted name. *)
Definition col_of (chunk : table) : string :=
  join ", " (map (fun x => if String.eqb x "order"
                           then (dq ++ "order" ++ dq)%string else x)
                 (keys chunk)).

(** [sql] of [insert]. *)
Definition sql_of (schema tbl : string) (chunk : table) : string :=
  nl ++ "        COPY " ++ schema ++ "." ++ tbl ++ " (" ++ col_of chunk
     ++ ") FROM STDIN" ++ nl
     ++ "        WITH (FORMAT CSV, DELIMITER E'|', QUOTE E'" ++ dq
     ++ "', ESCAPE E'" ++ dq ++ "')" ++ nl ++ "    ".

Definition insert (db : oracle) (chunk : table)
    (tenant schema tbl : string) : M unit :=
  let val := payload chunk in
  let sql := sql_of schema tbl chunk in
  with_ (connect db tenant) (fun failed => do_call db (ConnExit failed))
    (fun conn =>
       try_except
         (do_call db Cursor ;;
          with_ (do_call db (CopyEnter sql))
                (fun failed => do_call db (CopyExit failed))
                (fun writer => do_call db (Write val)) ;;
          do_call db Commit)
         (fun e =>
            print (exn_str e) ;;
            do_call db Rollback ;;
            raise (RuntimeError ("Error in: " ++ exn_str e) e))).

(** The [for future in as_completed(f)] loop: [finished] lists the futures
    in the order they complete, [results] holds what each task did. *)
Fixpoint wait_all (results : list (result unit)) (finished : list nat)
  : M unit :=
  match finished with
  | [] => ret tt
  | i :: rest =>
      match nth_error results i with
      | Some (Raise e) =>
          print (exn_str e) ;;
          raise (RuntimeError ("Error in: " ++ exn_str e) e)
      | _ => wait_all results rest
      end
  end.

(** A run of [publish]: what the calling thread does, and the events of
    every task given to the pool, one trace per task in the order of
    submission.  The pool runs every submitted task to its end before the
    [with] block of the executor is left; how the tasks interleave is not
    represented. *)
Record run : Type := {
  main : M unit;
  tasks : list (list event)
}.

(** [publish(df, tenant, table, schema)].  [db i] is the client as the
    [i]-th task meets it. *)
Definition publish (db : nat -> oracle) (finished : list nat)
    (df : dataframe) (tenant tbl schema : string) : run :=
  match (print ("Publishing " ++ tbl ++ " to " ++ tenant) ;;
         chunk_data df 50000) with
  | (t, Raise e) => {| main := (t, Raise e); tasks := [] |}
  | (t, Ok chunks) =>
      let futures :=
        map (fun ic => insert (db (fst ic)) (snd ic) tenant schema tbl)
            (combine (seq 0 (List.length chunks)) chunks) in
      {| main := ((t, Ok tt) ;;
                  wait_all (map snd futures) finished ;;
                  print "Finished publishing");
         tasks := map fst futures |}
  end.

End BulkInsert.

(* ================================================================== *)
(** * src/Files/bulk_insert_method_with_prog_bar.py *)
(* ================================================================== *)

Module ProgBar.
Import Py Eff Common.

Definition connect (db : oracle) : M unit := do_call db Connect.

Definition chunk_data (data : table) (chunk_size : Z) : M (list table) :=
  match chunk_body data chunk_size with
  | Ok chunked_data => ret chunked_data
  | Raise e =>
      print ("Error chunking data > " ++ exn_str e) ;;
      raise (RuntimeWarning e)
  end.

(** [query] of [insert]: the f-string puts [chunk.keys()] itself between
    the parentheses. *)
Definition query_of (tbl : string) (chunk : table) : string :=
  nl ++ "        COPY rxmedimate." ++ tbl ++ " (" ++ str_dict_keys chunk
     ++ ") FROM STDIN" ++ nl
     ++ "        WITH (FORMAT CSV, DELIMITER E'|', QUOTE E'" ++ dq
     ++ "', ESCAPE E'" ++ dq ++ "')" ++ nl ++ "    ".

Definition insert (db : oracle) (chunk : table) (tbl : string) : M unit :=
  let val := payload chunk in
  let query := query_of tbl chunk in
  with_ (connect db) (fun failed => do_call db (ConnExit failed))
    (fun conn =>
       try_except
         (do_call db Cursor ;;
          with_ (do_call db (CopyEnter query))
                (fun failed => do_call db (CopyExit failed))
                (fun writer => do_call db (Write val)) ;;
          do_call db Commit)
         (fun e =>
            do_call db Rollback ;;
            raise (RuntimeError ("Error inserting > " ++ exn_str e) e))).

End ProgBar.

(* ================================================================== *)
(** * Vocabulary of the properties *)
(* ================================================================== *)

Module Props.
Import Py Eff Common.

(** The rows of a table, as the serializer reads them. *)
Definition rows (t : table) : list (list value) := zip_star (values t).

(** The row count [chunk_data] works with: [len(values[0])]. *)
Definition nrows (t : table) : nat :=
  match values t with
  | [] => 0
  | v0 :: _ => List.length v0
  end.

Definition equal_lengths (t : table) : Prop :=
  Forall (fun v => List.length v = nrows t) (values t).

(** Column [name] of the chunks put end to end, and the table that has
    these columns under the given names. *)
Definition column (name : string) (chunks : list table) : list value :=
  List.concat (map (fun c => match dict_get name c with
                        | Some v => v
                        | None => []
                        end) chunks).

Definition reassemble (names : list string) (chunks : list table) : table :=
  map (fun name => (name, column name chunks)) names.

(** Rows [k * s] up to [k * s + s] of every column. *)
Definition chunk_at (s : nat) (t : table) (k : nat) : table :=
  map (fun kv => (fst kv, firstn s (skipn (k * s) (snd kv)))) t.

(** The table of the example scenario, and its two chunks. *)
Definition example_table : table :=
  [("id", [PyInt 1; PyInt 2; PyInt 3]);
   ("name", [PyStr "Alice"; PyStr "Bob"; PyNone])].

Definition example_chunk_1 : table :=
  [("id", [PyInt 1; PyInt 2]); ("name", [PyStr "Alice"; PyStr "Bob"])].

Definition example_chunk_2 : table :=
  [("id", [PyInt 3]); ("name", [PyNone])].

(** A dictionary whose columns differ in length. *)
Definition ragged_table : table :=
  [("a", [PyInt 1; PyInt 2; PyInt 3]); ("b", [PyInt 1])].

(** A client on which every call returns. *)
Definition db_ok : oracle := fun _ => None.

(** The payloads a trace shows as written. *)
Definition written (t : list event) : list string :=
  flat_map (fun ev => match ev with
                      | Called (Write data) _ => [data]
                      | _ => []
                      end) t.

(** The five placeholders of the sentinel property. *)
Definition sentinel_values : list string :=
  ["NaN"; " null "; "N/A"; "NaT"; ""].

(** [s] is one of the placeholders up to letter case and surrounding
    whitespace: whitespace, then the text of the placeholder in some
    case, then whitespace. *)
Definition sentinel_like (s : string) : Prop :=
  exists (t pre core post : string),
    In t sentinel_values
    /\ all_space pre = true /\ all_space post = true
    /\ s = (pre ++ core ++ post)%string
    /\ lower core = lower (strip t).

(** Every code point, for case analyses. *)
Definition all_ascii : list ascii := map ascii_of_nat (seq 0 256).

(** [ceil(N / S)] *)
Definition ceil_div (N S : Z) : Z := ((N + S - 1) / S)%Z.

(** The rows of the last chunk: [N mod S], or [S] when [S] divides [N]. *)
Definition last_chunk_rows (N S : Z) : Z :=
  if (N mod S =? 0)%Z then S else (N mod S)%Z.

(** The text of a bulk-load statement for a target and the text put
    between its parentheses, and the column list the statement is to
    have: the names joined by a comma and a space, the name order in
    double quotes. *)
Definition copy_statement (target cols : string) : string :=
  nl ++ "        COPY " ++ target ++ " (" ++ cols ++ ") FROM STDIN" ++ nl
     ++ "        WITH (FORMAT CSV, DELIMITER E'|', QUOTE E'" ++ dq
     ++ "', ESCAPE E'" ++ dq ++ "')" ++ nl ++ "    ".

Definition quoted_name (x : string) : string :=
  if String.eqb x "order" then dq ++ x ++ dq else x.

Definition column_list (names : list string) : string :=
  join ", " (map quoted_name names).

(** A chunk with the columns id and order, and the text [bulk_publish]
    puts between the parentheses of its statement for it. *)
Definition order_chunk : table := [("id", [PyInt 1]); ("order", [PyInt 2])].

Definition order_chunk_keys_text : string := "dict_keys(['id', 'order'])".

(** A client whose write fails. *)
Definition db_write_fails : oracle :=
  fun c => match c with
           | Write _ => Some (DatabaseError "connection lost")
           | _ => None
           end.




(** The field with an embedded pair of double quotes. *)
Definition he_said_hi : string := "He said " ++ dq ++ "hi" ++ dq.

(** Whether a call on the client returns. *)
Definition returns (db : oracle) (c : call) : bool :=
  match db c with None => true | Some _ => false end.

(** The streamed write completes: cursor, statement, write and the end of
    the copy block all return. *)
Definition stream_ok (db : oracle) (sql val : string) : bool :=
  returns db Cursor && returns db (CopyEnter sql) && returns db (Write val)
  && returns db (CopyExit false).

(** The exception, if any, with which the steps from the cursor to the
    commit end.  When the write raises, the copy block is left through its
    exit, which may raise in its turn. *)
Definition first_failure (db : oracle) (sql val : string) : option exn :=
  match db Cursor with
  | Some e => Some e
  | None =>
      match db (CopyEnter sql) with
      | Some e => Some e
      | None =>
          match db (Write val) with
          | Some e =>
              match db (CopyExit true) with
              | Some e' => Some e'
              | None => Some e
              end
          | None =>
              match db (CopyExit false) with
              | Some e => Some e
              | None => db Commit
              end
          end
      end
  end.


End Props.

(* ================================================================== *)
(** * Vocabulary of the further properties *)
(* ================================================================== *)

Module Framing.
Import Py Eff Common Props.

(** How often a code point occurs in a text. *)
Fixpoint count_char (c : ascii) (s : string) : nat :=
  match s with
  | EmptyString => 0
  | String x r => (if Ascii.eqb x c then 1 else 0) + count_char c r
  end.

Definition pipe : ascii := "|"%char.

(** One line of the payload: the fields of a row between delimiters. *)
Definition line (row : list value) : string := join "|" (map field row).

(** The ends of the two [with] blocks of [insert] in a trace. *)
Definition is_conn_exit (ev : event) : bool :=
  match ev with Called (ConnExit _) _ => true | _ => false end.

Definition is_copy_exit (ev : event) : bool :=
  match ev with Called (CopyExit _) _ => true | _ => false end.

(** Every call of a load returns. *)
Definition all_return (db : oracle) (sql val : string) : bool :=
  returns db Connect && stream_ok db sql val && returns db Commit
  && returns db (ConnExit false).

(** What the tasks of [publish] return or raise, in the order of
    submission. *)
Definition task_results (db : nat -> oracle) (chunks : list table)
    (tenant schema tbl : string) : list (result unit) :=
  map (fun ic => snd (BulkInsert.insert (db (fst ic)) (snd ic)
                        tenant schema tbl))
      (combine (seq 0 (List.length chunks)) chunks).

(** The steps from the cursor to the commit all return. *)
Definition load_ok (db : oracle) (sql val : string) : bool :=
  match first_failure db sql val with
  | None => true
  | Some _ => false
  end.

(** The events of a load on which every call returns, in their order. *)
Definition clean_load (sql val : string) : list event :=
  [Called Connect None; Called Cursor None; Called (CopyEnter sql) None;
   Called (Write val) None; Called (CopyExit false) None;
   Called Commit None; Called (ConnExit false) None].

(** [insert] returns normally exactly when every call returns, and its
    events are then those of the clean load. *)
Definition load_protocol (db : oracle) (sql val : string)
    (run : M unit) : Prop :=
  (snd run = Ok tt <-> all_return db sql val = true)
  /\ (all_return db sql val = true -> fst run = clean_load sql val).

(** Both [with] blocks are left through their exits: the connection once,
    as the last event, with the flag that tells whether the load failed;
    the copy block once if it was entered. *)
Definition scoped_release (db : oracle) (sql val : string)
    (run : M unit) : Prop :=
  Eff.count is_conn_exit (fst run) = 1
  /\ last (fst run) (Print EmptyString)
     = Called (ConnExit (negb (load_ok db sql val)))
              (db (ConnExit (negb (load_ok db sql val))))
  /\ Eff.count is_copy_exit (fst run)
     = (if returns db Cursor && returns db (CopyEnter sql) then 1 else 0).

(** The payload is written once, after connection, cursor and statement,
    or not at all. *)
Definition written_once (db : oracle) (sql val : string)
    (run : M unit) : Prop :=
  written (fst run)
  = if returns db Connect && returns db Cursor && returns db (CopyEnter sql)
    then [val] else [].

(** A code point that no step of the sanitizer can produce or consume:
    it is no whitespace, [lower] neither yields it from another code point
    nor changes it, and no alternative of the pattern holds it in either
    case. *)
Definition foreign_char (c : ascii) : bool :=
  negb (is_space c)
  && forallb (fun x => Bool.eqb (Ascii.eqb (lower_char x) c) (Ascii.eqb x c))
             all_ascii
  && forallb (fun alt => (count_char c (lower alt) =? 0)%nat)
             comp_alternatives.

End Framing.

(* ================================================================== *)
(** * Lists, slices and dictionaries *)
(* ================================================================== *)

Import Py Eff Common Props Framing.

Section ListFacts.
Context {A : Type}.

Lemma firstn_plus (a b : nat) (l : list A) :
  firstn (a + b) l = (firstn a l ++ firstn b (skipn a l))%list.
Proof.
  revert l; induction a as [|a IH]; intros l; simpl; [reflexivity|].
  destruct l as [|x l]; simpl.
  - now rewrite firstn_nil.
  - now rewrite IH.
Qed.

(** Cutting a list into [m] pieces of [s] items gives back what the first
    [m * s] items are. *)
Lemma concat_pieces (s m : nat) (l : list A) :
  List.concat (map (fun k => firstn s (skipn (k * s) l)) (seq 0 m))
  = firstn (m * s) l.
Proof.
  induction m as [|m IH].
  - reflexivity.
  - rewrite seq_S, map_app, concat_app, IH; simpl.
    rewrite app_nil_r.
    replace (s + m * s) with (m * s + s) by lia.
    now rewrite firstn_plus.
Qed.

Lemma slice_forward (v : list A) (i S : Z) :
  (0 <= i)%Z -> (0 < S)%Z ->
  slice v i (i + S) = firstn (Z.to_nat S) (skipn (Z.to_nat i) v).
Proof.
  intros Hi HS. unfold slice, clamp.
  destruct (Z.ltb_spec i 0); [lia|].
  destruct (Z.ltb_spec (i + S) 0); [lia|].
  set (len := Z.of_nat (List.length v)).
  destruct (Z.le_gt_cases len i) as [Hbig | Hsmall].
  - (* the slice starts at or after the end *)
    replace (Z.min (i + S) len - Z.min i len)%Z with 0%Z by lia.
    rewrite (@skipn_all2 _ (Z.to_nat i) v) by (fold len; lia).
    now rewrite firstn_nil.
  - replace (Z.min i len) with i by lia.
    destruct (Z.le_gt_cases (i + S) len) as [Hin | Hout].
    + replace (Z.min (i + S) len - i)%Z with S by lia. reflexivity.
    + replace (Z.min (i + S) len) with len by lia.
      assert (Hl : List.length (skipn (Z.to_nat i) v) = Z.to_nat (len - i)).
      { rewrite length_skipn. unfold len. lia. }
      rewrite !firstn_all2; [reflexivity | lia | lia].
Qed.

Lemma zip_with_firstn {B C : Type} (f : A -> B -> C) n a b :
  zip_with f (firstn n a) (firstn n b) = firstn n (zip_with f a b).
Proof.
  revert a b; induction n as [|n IH]; intros [|x a] [|y b]; simpl;
    try reflexivity.
  now rewrite IH.
Qed.

Lemma zip_with_skipn {B C : Type} (f : A -> B -> C) n a b :
  zip_with f (skipn n a) (skipn n b) = skipn n (zip_with f a b).
Proof.
  revert a b; induction n as [|n IH]; intros [|x a] [|y b]; simpl;
    try reflexivity.
  - now destruct (skipn n a).
  - apply IH.
Qed.

Lemma zip_with_length_le {B C : Type} (f : A -> B -> C) a b :
  List.length (zip_with f a b) <= List.length a.
Proof.
  revert b; induction a as [|x a IH]; intros [|y b]; simpl; try lia.
  specialize (IH b). lia.
Qed.

Lemma zip_with_length {B C : Type} (f : A -> B -> C) a b :
  List.length a = List.length b ->
  List.length (zip_with f a b) = List.length a.
Proof.
  revert b; induction a as [|x a IH]; intros [|y b]; simpl; try congruence.
  intros H. f_equal. apply IH. congruence.
Qed.

Lemma zip_star_firstn n (cols : list (list A)) :
  zip_star (map (firstn n) cols) = firstn n (zip_star cols).
Proof.
  induction cols as [|c rest IH]; simpl.
  - now rewrite firstn_nil.
  - destruct rest as [|c' rest'].
    + simpl. now rewrite firstn_map.
    + change (map (firstn n) (c' :: rest'))
        with (firstn n c' :: map (firstn n) rest') in *.
      rewrite <- zip_with_firstn. f_equal. exact IH.
Qed.

Lemma zip_star_skipn n (cols : list (list A)) :
  zip_star (map (skipn n) cols) = skipn n (zip_star cols).
Proof.
  induction cols as [|c rest IH]; simpl.
  - now rewrite skipn_nil.
  - destruct rest as [|c' rest'].
    + simpl. now rewrite skipn_map.
    + change (map (skipn n) (c' :: rest'))
        with (skipn n c' :: map (skipn n) rest') in *.
      rewrite <- zip_with_skipn. f_equal. exact IH.
Qed.

Lemma zip_star_length_le (c : list A) rest :
  List.length (zip_star (c :: rest)) <= List.length c.
Proof.
  simpl. destruct rest.
  - now rewrite length_map.
  - apply zip_with_length_le.
Qed.

Lemma zip_star_length n (cols : list (list A)) :
  cols <> [] -> Forall (fun c => List.length c = n) cols ->
  List.length (zip_star cols) = n.
Proof.
  induction cols as [|c rest IH]; [congruence|].
  intros _ H. inversion H as [|? ? Hc Hrest]; subst.
  destruct rest as [|c' rest'].
  - simpl. now rewrite length_map.
  - change (zip_star (c :: c' :: rest'))
      with (zip_with cons c (zip_star (c' :: rest'))).
    rewrite zip_with_length; [reflexivity|].
    rewrite IH; [reflexivity | discriminate | assumption].
Qed.

End ListFacts.

Section DictFacts.
Context {V : Type}.

Lemma dict_set_fresh (d : dict V) k v :
  ~ In k (keys d) -> dict_set d k v = (d ++ [(k, v)])%list.
Proof.
  induction d as [|[k' v'] d IH]; simpl; intros Hk; [reflexivity|].
  destruct (String.eqb_spec k' k) as [->|Hne].
  - exfalso; apply Hk; now left.
  - rewrite IH; [reflexivity|]. intros Hin; apply Hk; now right.
Qed.

Lemma dict_set_keys_in (d : dict V) k v :
  In k (keys d) -> keys (dict_set d k v) = keys d.
Proof.
  induction d as [|[k' v'] d IH]; simpl; intros Hk; [contradiction|].
  destruct (String.eqb_spec k' k) as [->|Hne]; simpl; [reflexivity|].
  f_equal. apply IH. destruct Hk; [contradiction | assumption].
Qed.

Lemma dict_set_keys_nodup (d : dict V) k v :
  NoDup (keys d) -> NoDup (keys (dict_set d k v)).
Proof.
  intros Hd. destruct (in_dec string_dec k (keys d)) as [Hin | Hout].
  - now rewrite dict_set_keys_in.
  - rewrite dict_set_fresh by assumption.
    unfold keys. rewrite map_app. simpl.
    apply NoDup_app; [assumption | repeat constructor; intros [] | ].
    intros a Ha [<- | []]. exact (Hout Ha).
Qed.

Lemma dict_set_values (P : V -> Prop) (d : dict V) k v :
  Forall P (values d) -> P v -> Forall P (values (dict_set d k v)).
Proof.
  induction d as [|[k' v'] d IH]; simpl; intros Hd Hv.
  - now constructor.
  - inversion Hd; subst.
    destruct (String.eqb k' k); simpl; constructor; auto.
Qed.

Lemma dict_set_not_nil (d : dict V) k v : dict_set d k v <> [].
Proof.
  destruct d as [|[k' v'] d]; simpl; [discriminate|].
  destruct (String.eqb k' k); discriminate.
Qed.

Lemma dict_fold_inv (Q : dict V -> Prop) (l : list (string * V)) :
  (forall d k v, In (k, v) l -> Q d -> Q (dict_set d k v)) ->
  forall acc, Q acc ->
  Q (fold_left (fun d kv => dict_set d (fst kv) (snd kv)) l acc).
Proof.
  induction l as [|[k v] l IH]; simpl; intros Hstep acc Hacc; [assumption|].
  apply IH.
  - intros d k' v' Hin. apply Hstep. now right.
  - apply Hstep; [now left | assumption].
Qed.

Lemma dict_of_keys_nodup (l : list (string * V)) : NoDup (keys (dict_of l)).
Proof.
  unfold dict_of. apply dict_fold_inv.
  - intros d k v _. apply dict_set_keys_nodup.
  - constructor.
Qed.

Lemma dict_of_values (P : V -> Prop) (l : list (string * V)) :
  Forall P (values l) -> Forall P (values (dict_of l)).
Proof.
  intros Hl. unfold dict_of. apply dict_fold_inv.
  - intros d k v Hin Hd. apply dict_set_values; [assumption|].
    rewrite Forall_forall in Hl. apply Hl.
    unfold values. now apply (in_map snd) in Hin.
  - constructor.
Qed.

Lemma dict_of_not_nil (l : list (string * V)) : l <> [] -> dict_of l <> [].
Proof.
  destruct l as [|[k v] l]; [congruence|]. intros _.
  unfold dict_of; simpl.
  apply (dict_fold_inv (fun d => d <> [])).
  - intros; apply dict_set_not_nil.
  - discriminate.
Qed.

(** Building a dictionary from items whose keys differ keeps the items. *)
Lemma dict_of_nodup (l : list (string * V)) :
  NoDup (keys l) -> dict_of l = l.
Proof.
  unfold dict_of.
  enough (H : forall acc, NoDup (keys (acc ++ l)%list) ->
            fold_left (fun d kv => dict_set d (fst kv) (snd kv)) l acc
            = (acc ++ l)%list) by (intros Hl; exact (H [] Hl)).
  induction l as [|[k v] l IH]; simpl; intros acc Hnd.
  - now rewrite app_nil_r.
  - rewrite dict_set_fresh.
    + rewrite IH; rewrite <- app_assoc; [reflexivity | exact Hnd].
    + unfold keys in Hnd. rewrite map_app in Hnd. simpl in Hnd.
      apply NoDup_remove_2 in Hnd.
      intros Hin. apply Hnd. apply in_or_app. now left.
Qed.

Lemma dict_get_map (f : V -> V) k (d : dict V) :
  dict_get k (map (fun kv => (fst kv, f (snd kv))) d)
  = option_map f (dict_get k d).
Proof.
  induction d as [|[k' v] d IH]; simpl; [reflexivity|].
  now destruct (String.eqb k' k).
Qed.

Lemma dict_get_nodup k v (d : dict V) :
  NoDup (keys d) -> In (k, v) d -> dict_get k d = Some v.
Proof.
  induction d as [|[k' v'] d IH]; simpl; intros Hnd Hin; [contradiction|].
  inversion Hnd as [|? ? Hout Hnd']; subst.
  destruct Hin as [Heq | Hin].
  - inversion Heq; subst. now rewrite String.eqb_refl.
  - destruct (String.eqb_spec k' k) as [->|Hne]; [|now apply IH].
    exfalso. apply Hout. unfold keys. now apply (in_map fst) in Hin.
Qed.

Lemma combine_keys_map (f : V -> V) (d : dict V) :
  combine (keys d) (map f (values d))
  = map (fun kv => (fst kv, f (snd kv))) d.
Proof.
  induction d as [|[k v] d IH]; simpl; [reflexivity|]. now rewrite IH.
Qed.

Lemma keys_map_snd (f : V -> V) (d : dict V) :
  keys (map (fun kv => (fst kv, f (snd kv))) d) = keys d.
Proof.
  unfold keys. rewrite map_map. reflexivity.
Qed.

Lemma values_map_snd (f : V -> V) (d : dict V) :
  values (map (fun kv => (fst kv, f (snd kv))) d) = map f (values d).
Proof.
  unfold values. now rewrite !map_map.
Qed.

End DictFacts.

(* ================================================================== *)
(** * The chunker *)
(* ================================================================== *)

Section Chunker.

Lemma range_length_ceil (N : nat) (S : Z) :
  (0 < S)%Z -> range_length 0 (Z.of_nat N) S = ceil_div (Z.of_nat N) S.
Proof.
  intros HS. unfold range_length, ceil_div.
  destruct (Z.ltb_spec 0 S); [|lia].
  destruct (Z.ltb_spec 0 (Z.of_nat N)).
  - replace (Z.of_nat N + S - 1)%Z with (Z.of_nat N - 0 - 1 + 1 * S)%Z by lia.
    rewrite Z.div_add by lia. reflexivity.
  - replace (Z.of_nat N) with 0%Z by lia.
    symmetry. apply Z.div_small. lia.
Qed.

Lemma ceil_div_bounds (N S : Z) :
  (0 <= N)%Z -> (0 < S)%Z ->
  (0 <= ceil_div N S /\ N <= ceil_div N S * S
   /\ (ceil_div N S - 1) * S < N \/ (N = 0 /\ ceil_div N S = 0))%Z.
Proof.
  intros HN HS. unfold ceil_div.
  pose proof (Z.div_mod (N + S - 1) S ltac:(lia)) as Hdm.
  pose proof (Z.mod_pos_bound (N + S - 1) S HS) as Hb.
  destruct (Z.eq_dec N 0) as [-> | Hne].
  - right. split; [reflexivity|]. apply Z.div_small. lia.
  - left. nia.
Qed.

Lemma ceil_div_cover (N : nat) (S : Z) :
  (0 < S)%Z ->
  N <= Z.to_nat (ceil_div (Z.of_nat N) S) * Z.to_nat S.
Proof.
  intros HS.
  destruct (ceil_div_bounds (Z.of_nat N) S ltac:(lia) HS)
    as [(H0 & H1 & _) | (H0 & _)]; [|lia].
  apply Nat2Z.inj_le. rewrite Nat2Z.inj_mul, !Z2Nat.id by lia. exact H1.
Qed.

(** What [chunk_data] computes on a dictionary that has a column, for a
    positive chunk size. *)
Lemma chunk_body_ok (d : table) (S : Z) :
  NoDup (keys d) -> d <> [] -> (0 < S)%Z ->
  chunk_body d S
  = Ok (map (chunk_at (Z.to_nat S) d)
            (seq 0 (Z.to_nat (ceil_div (Z.of_nat (nrows d)) S)))).
Proof.
  intros Hnd Hne HS. unfold chunk_body, nrows.
  destruct d as [|[k0 v0] d']; [congruence|].
  change (values ((k0, v0) :: d')) with (v0 :: values d').
  cbv iota beta.
  unfold range. destruct (Z.eqb_spec S 0); [lia|].
  rewrite range_length_ceil by assumption.
  rewrite map_map. f_equal. apply map_ext. intros k.
  set (d := (k0, v0) :: d') in *.
  change (v0 :: values d') with (values d).
  rewrite (map_ext _ (fun v => firstn (Z.to_nat S) (skipn (k * Z.to_nat S) v))).
  - rewrite combine_keys_map.
    rewrite dict_of_nodup; [reflexivity|].
    now rewrite
      (keys_map_snd (fun v => firstn (Z.to_nat S) (skipn (k * Z.to_nat S) v))).
  - intros v. rewrite slice_forward by lia.
    f_equal. f_equal. rewrite Z.add_0_l, Z2Nat.inj_mul, Nat2Z.id by lia.
    reflexivity.
Qed.

Lemma chunk_body_no_column (S : Z) :
  chunk_body [] S = Raise (IndexError "list index out of range").
Proof. reflexivity. Qed.

Lemma chunk_at_keys s (d : table) k : keys (chunk_at s d k) = keys d.
Proof.
  exact (keys_map_snd (fun v => firstn s (skipn (k * s) v)) d).
Qed.

Lemma chunk_at_rows s (d : table) k :
  rows (chunk_at s d k) = firstn s (skipn (k * s) (rows d)).
Proof.
  unfold rows, chunk_at.
  rewrite (values_map_snd (fun v => firstn s (skipn (k * s) v))).
  rewrite <- (map_map (skipn (k * s)) (firstn s)).
  now rewrite zip_star_firstn, zip_star_skipn.
Qed.

Lemma rows_length_le (d : table) : List.length (rows d) <= nrows d.
Proof.
  unfold rows, nrows. destruct (values d) as [|v0 vs]; [simpl; lia|].
  apply zip_star_length_le.
Qed.

Lemma column_chunk_at s m (d : table) name v :
  dict_get name d = Some v ->
  column name (map (chunk_at s d) (seq 0 m)) = firstn (m * s) v.
Proof.
  intros Hget. unfold column. rewrite map_map.
  rewrite <- concat_pieces. f_equal. apply map_ext. intros k.
  unfold chunk_at.
  rewrite (dict_get_map (fun v => firstn s (skipn (k * s) v))), Hget.
  reflexivity.
Qed.

Lemma reassemble_chunk_at s m (d : table) :
  NoDup (keys d) ->
  Forall (fun v => List.length v <= m * s) (values d) ->
  reassemble (keys d) (map (chunk_at s d) (seq 0 m)) = d.
Proof.
  intros Hnd Hlen. unfold reassemble, keys. rewrite map_map.
  transitivity (map (fun kv : string * list value => kv) d); [|apply map_id].
  apply map_ext_in. intros [k v] Hin. simpl.
  f_equal. rewrite (column_chunk_at s m d k v).
  - apply firstn_all2. rewrite Forall_forall in Hlen. apply Hlen.
    unfold values. now apply (in_map snd) in Hin.
  - now apply dict_get_nodup.
Qed.

Lemma rows_chunk_at s m (d : table) :
  nrows d <= m * s ->
  List.concat (map (fun c => rows c) (map (chunk_at s d) (seq 0 m))) = rows d.
Proof.
  intros Hlen. rewrite map_map.
  rewrite (map_ext _ (fun k => firstn s (skipn (k * s) (rows d))))
    by (intros; apply chunk_at_rows).
  rewrite concat_pieces. apply firstn_all2.
  pose proof (rows_length_le d). lia.
Qed.

End Chunker.

(* ================================================================== *)
(** * Properties of [chunk_data] *)
(* ================================================================== *)

(** C1.  The example scenario: the table with columns id = 1, 2, 3 and
    name = Alice, Bob, None and chunk size 2 is cut into the chunks
    (id: 1, 2; name: Alice, Bob) and (id: 3; name: None) by the chunker of
    either file; the payload of the first chunk is the two lines 1|alice
    and 2|bob with one newline between them and none at the end, that of
    the second is 3| ; and these are the texts [insert] writes. *)
Theorem example_scenario :
  BulkInsert.chunk_data example_table 2
    = ([], Ok [example_chunk_1; example_chunk_2])
  /\ ProgBar.chunk_data example_table 2
    = ([], Ok [example_chunk_1; example_chunk_2])
  /\ payload example_chunk_1 = ("1|alice" ++ nl ++ "2|bob")%string
  /\ payload example_chunk_2 = "3|"
  /\ written (fst (BulkInsert.insert db_ok example_chunk_1 "tenant" "s" "t"))
     = [("1|alice" ++ nl ++ "2|bob")%string]
  /\ written (fst (BulkInsert.insert db_ok example_chunk_2 "tenant" "s" "t"))
     = ["3|"]
  /\ written (fst (ProgBar.insert db_ok example_chunk_1 "t"))
     = [("1|alice" ++ nl ++ "2|bob")%string]
  /\ written (fst (ProgBar.insert db_ok example_chunk_2 "t")) = ["3|"].
Proof. repeat split; vm_compute; reflexivity. Qed.

Lemma equal_lengths_bound (T : table) (m s : nat) :
  equal_lengths T -> nrows T <= m * s ->
  Forall (fun v => List.length v <= m * s) (values T).
Proof.
  unfold equal_lengths. intros Heq Hle.
  eapply Forall_impl; [|exact Heq]. simpl. intros v ->. exact Hle.
Qed.

(** C5.  Chunk completeness: for a table with distinct column names and
    columns of equal length, and a positive chunk size, [chunk_data]
    returns (it raises only for the table without columns, which has no
    rows to give back); every chunk has the columns of the table, putting
    the chunks end to end column by column gives the table back, and the
    rows of the chunks one after the other are the rows of the table. *)
Theorem chunk_data_complete (T : BulkInsert.dataframe) (S : Z) :
  NoDup (keys T) -> equal_lengths T -> (0 < S)%Z ->
  match BulkInsert.chunk_data T S with
  | (out, Ok chunks) =>
      out = []
      /\ Forall (fun c => keys c = keys T) chunks
      /\ reassemble (keys T) chunks = T
      /\ List.concat (map rows chunks) = rows T
  | (_, Raise _) => T = []
  end.
Proof.
  intros Hnd Heq HS. unfold BulkInsert.chunk_data, BulkInsert.to_dict_list.
  rewrite dict_of_nodup by assumption.
  destruct T as [|kv T']; [reflexivity|].
  set (T := kv :: T') in *.
  rewrite chunk_body_ok by (assumption || discriminate).
  pose proof (ceil_div_cover (nrows T) S HS) as Hcover.
  cbn [ret]. repeat split.
  - rewrite Forall_map. apply Forall_forall. intros k _.
    apply chunk_at_keys.
  - apply reassemble_chunk_at; [assumption|].
    now apply equal_lengths_bound.
  - now apply rows_chunk_at.
Qed.

Lemma chunk_data_complete_witness :
  reassemble (keys example_table) [example_chunk_1; example_chunk_2]
    = example_table
  /\ List.concat (map rows [example_chunk_1; example_chunk_2])
    = rows example_table.
Proof.
  assert (Hnd : NoDup (keys example_table)).
  { repeat constructor; simpl; intuition discriminate. }
  assert (Heq : equal_lengths example_table) by (repeat constructor).
  pose proof (chunk_data_complete example_table 2 Hnd Heq eq_refl) as H.
  cbv in H. destruct H as (_ & _ & H1 & H2). split; assumption.
Defined.

Lemma dict_of_table (T : table) (N : nat) :
  T <> [] -> Forall (fun v => List.length v = N) (values T) ->
  NoDup (keys (dict_of T)) /\ dict_of T <> []
  /\ Forall (fun v => List.length v = N) (values (dict_of T))
  /\ nrows (dict_of T) = N.
Proof.
  intros Hne Hlen.
  pose proof (dict_of_keys_nodup T) as Hnd.
  pose proof (dict_of_not_nil T Hne) as Hne'.
  pose proof (dict_of_values _ T Hlen) as Hlen'.
  repeat split; try assumption.
  unfold nrows. destruct (dict_of T) as [|[k0 v0] d']; [congruence|].
  simpl in *. now inversion Hlen'.
Qed.

Lemma chunk_at_lengths (s N k : nat) (d : table) :
  Forall (fun v => List.length v = N) (values d) ->
  Forall (fun v => List.length v = Nat.min s (N - k * s))
         (values (chunk_at s d k)).
Proof.
  intros Hlen. unfold chunk_at.
  rewrite (values_map_snd (fun v => firstn s (skipn (k * s) v))).
  rewrite Forall_map. eapply Forall_impl; [|exact Hlen]. simpl.
  intros v Hv. now rewrite length_firstn, length_skipn, Hv.
Qed.

Lemma chunk_rows_count (N k : nat) (S : Z) :
  0 < N -> (0 < S)%Z ->
  k < Z.to_nat (ceil_div (Z.of_nat N) S) ->
  Z.of_nat (Nat.min (Z.to_nat S) (N - k * Z.to_nat S))
  = if (Datatypes.S k <? Z.to_nat (ceil_div (Z.of_nat N) S))%nat
    then S else last_chunk_rows (Z.of_nat N) S.
Proof.
  intros HN HS Hk.
  destruct (ceil_div_bounds (Z.of_nat N) S ltac:(lia) HS)
    as [(H0 & H1 & H2) | (H0 & _)]; [|lia].
  set (m := ceil_div (Z.of_nat N) S) in *.
  destruct (Nat.ltb_spec (Datatypes.S k) (Z.to_nat m)) as [Hin | Hlast].
  - (* a full chunk: (k + 1) * S <= (m - 1) * S < N *)
    assert ((Z.of_nat k + 1) * S <= (m - 1) * S)%Z by nia.
    rewrite Nat.min_l; [lia|]. nia.
  - assert (Hm : m = (Z.of_nat k + 1)%Z) by lia.
    assert (Hr : (0 < Z.of_nat N - Z.of_nat k * S <= S)%Z) by nia.
    rewrite Nat.min_r by nia.
    unfold last_chunk_rows.
    destruct (Z.eq_dec (Z.of_nat N - Z.of_nat k * S) S) as [Hfull | Hpart].
    + replace (Z.of_nat N) with (0 + (Z.of_nat k + 1) * S)%Z by lia.
      rewrite Z.mod_add by lia. rewrite Z.mod_0_l by lia. simpl. nia.
    + assert (Hmod : (Z.of_nat N mod S = Z.of_nat N - Z.of_nat k * S)%Z).
      { replace (Z.of_nat N)
          with ((Z.of_nat N - Z.of_nat k * S) + Z.of_nat k * S)%Z at 1 by lia.
        rewrite Z.mod_add by lia. apply Z.mod_small. lia. }
      rewrite Hmod. destruct (Z.eqb_spec (Z.of_nat N - Z.of_nat k * S) 0); nia.
Qed.

(** C6.  Chunk count and sizes: for a table with N > 0 rows in columns of
    equal length and a chunk size S > 0, [chunk_data] returns ceil(N / S)
    chunks; every chunk but the last has exactly S rows, and the last has
    N mod S rows, or S rows when S divides N.  The count holds for every
    column of the chunk and for the rows the serializer reads from it. *)
Theorem chunk_data_sizes (T : BulkInsert.dataframe) (S : Z) :
  equal_lengths T -> 0 < nrows T -> (0 < S)%Z ->
  exists chunks,
    BulkInsert.chunk_data T S = ([], Ok chunks)
    /\ Z.of_nat (List.length chunks) = ceil_div (Z.of_nat (nrows T)) S
    /\ forall k c, nth_error chunks k = Some c ->
         let expected :=
           if (Datatypes.S k <? List.length chunks)%nat then S
           else last_chunk_rows (Z.of_nat (nrows T)) S in
         Forall (fun v => Z.of_nat (List.length v) = expected) (values c)
         /\ Z.of_nat (List.length (rows c)) = expected.
Proof.
  intros Heq HN HS.
  assert (Hne : T <> []) by (intros ->; cbv in HN; lia).
  destruct (dict_of_table T (nrows T) Hne Heq) as (Hnd & Hne' & Hlen & Hrows).
  unfold BulkInsert.chunk_data, BulkInsert.to_dict_list.
  rewrite chunk_body_ok by assumption. rewrite Hrows.
  set (m := Z.to_nat (ceil_div (Z.of_nat (nrows T)) S)).
  eexists. split; [reflexivity|].
  rewrite length_map, length_seq.
  split.
  - unfold m. rewrite Z2Nat.id; [reflexivity|].
    destruct (ceil_div_bounds (Z.of_nat (nrows T)) S ltac:(lia) HS)
      as [(H0 & _) | (_ & H0)]; lia.
  - intros k c Hk. rewrite nth_error_map, nth_error_seq in Hk.
    destruct (Nat.ltb_spec k m) as [Hkm|]; [|discriminate].
    simpl in Hk. inversion Hk; subst c; clear Hk.
    cbv zeta. unfold m in *.
    rewrite <- (chunk_rows_count (nrows T) k S) by assumption.
    pose proof (chunk_at_lengths (Z.to_nat S) (nrows T) k _ Hlen) as Hcols.
    split.
    + eapply Forall_impl; [|exact Hcols]. simpl. intros v ->. reflexivity.
    + unfold rows. rewrite (zip_star_length (Nat.min (Z.to_nat S)
                               (nrows T - k * Z.to_nat S))); [reflexivity| |].
      * unfold chunk_at, values. rewrite map_map.
        destruct (dict_of T); [congruence | discriminate].
      * exact Hcols.
Qed.

Lemma chunk_data_sizes_witness :
  exists chunks,
    BulkInsert.chunk_data example_table 2 = ([], Ok chunks)
    /\ Z.of_nat (List.length chunks) = 2%Z
    /\ forall k c, nth_error chunks k = Some c ->
         Z.of_nat (List.length (rows c))
         = if (Datatypes.S k <? List.length chunks)%nat then 2%Z else 1%Z.
Proof.
  assert (Heq : equal_lengths example_table) by (repeat constructor).
  destruct (chunk_data_sizes example_table 2 Heq
              ltac:(unfold nrows; simpl; lia) eq_refl)
    as (chunks & Hrun & Hlen & Hsizes).
  exists chunks. split; [exact Hrun|]. split; [exact Hlen|].
  intros k c Hk. exact (proj2 (Hsizes k c Hk)).
Defined.

(** C3 does not hold as the specification states it: the dictionary with
    a column of three values and a column of one value is cut without an
    error, and the second chunk pairs a value with nothing. *)
Lemma chunk_data_unequal_columns_returns :
  ~ equal_lengths ragged_table
  /\ ProgBar.chunk_data ragged_table 2
     = ([], Ok [[("a", [PyInt 1; PyInt 2]); ("b", [PyInt 1])];
                [("a", [PyInt 3]); ("b", [])]])
  /\ forall e, snd (ProgBar.chunk_data ragged_table 2) <> Raise e.
Proof.
  split; [|split].
  - intros H. unfold equal_lengths, ragged_table in H. simpl in H.
    inversion H as [|? ? _ H']; subst. inversion H' as [|? ? Hb _]; subst.
    discriminate Hb.
  - reflexivity.
  - intros e. vm_compute. discriminate.
Qed.

(** C3, amended.  [chunk_data] raises the wrapped error, a
    [RuntimeWarning] whose cause is the [IndexError] of [values[0]], when
    the table has no column.  A table with at least one column and a
    positive chunk size is never refused, whatever the lengths of its
    columns: the result has ceil(len(first column) / chunk_size) chunks,
    and chunk k holds of every column what it has at the positions from
    k * chunk_size up to k * chunk_size + chunk_size. *)
Theorem chunk_data_raises_without_columns (T : table) (S : Z) :
  NoDup (keys T) -> (0 < S)%Z ->
  (T = [] ->
     snd (ProgBar.chunk_data T S)
       = Raise (RuntimeWarning (IndexError "list index out of range"))
     /\ snd (BulkInsert.chunk_data T S)
       = Raise (RuntimeWarning (IndexError "list index out of range")))
  /\ (T <> [] ->
      let sliced :=
        map (chunk_at (Z.to_nat S) T)
            (seq 0 (Z.to_nat (ceil_div (Z.of_nat (nrows T)) S))) in
      ProgBar.chunk_data T S = ([], Ok sliced)
      /\ BulkInsert.chunk_data T S = ([], Ok sliced)).
Proof.
  intros Hnd HS. split.
  - intros ->. split; reflexivity.
  - intros Hne. cbv zeta.
    unfold ProgBar.chunk_data, BulkInsert.chunk_data, BulkInsert.to_dict_list.
    rewrite dict_of_nodup by assumption.
    rewrite chunk_body_ok by assumption. split; reflexivity.
Qed.

Lemma chunk_data_raises_without_columns_witness :
  ProgBar.chunk_data ragged_table 2
  = ([], Ok (map (chunk_at 2 ragged_table) (seq 0 2))).
Proof.
  assert (Hnd : NoDup (keys ragged_table)).
  { repeat constructor; simpl; intuition discriminate. }
  exact (proj1 (proj2 (chunk_data_raises_without_columns
                         ragged_table 2 Hnd eq_refl)
                      ltac:(discriminate))).
Defined.

Lemma range_no_rows (S : Z) : S <> 0%Z -> range 0 0 S = Some [].
Proof.
  intros HS. unfold range, range_length.
  destruct (Z.eqb_spec S 0); [contradiction|].
  now destruct (0 <? S)%Z.
Qed.

Lemma wait_all_no_task (finished : list nat) :
  BulkInsert.wait_all [] finished = ([], Ok tt).
Proof.
  induction finished as [|i rest IH]; simpl; [reflexivity|].
  now destruct i.
Qed.

Lemma chunk_data_no_rows (df : BulkInsert.dataframe) (S : Z) :
  df <> [] -> Forall (fun v => v = []) (values df) -> S <> 0%Z ->
  BulkInsert.chunk_data df S = ([], Ok []).
Proof.
  intros Hne Hempty HS.
  unfold BulkInsert.chunk_data, BulkInsert.to_dict_list.
  pose proof (dict_of_not_nil df Hne) as Hne'.
  pose proof (dict_of_values _ df Hempty) as Hempty'.
  destruct (dict_of df) as [|[k0 v0] d']; [congruence|].
  inversion Hempty' as [|? ? Hv0 _]; subst.
  unfold chunk_body. simpl values. cbv iota.
  change (Z.of_nat (List.length (@nil value))) with 0%Z.
  now rewrite range_no_rows.
Qed.

(** C10.  A table that has at least one column and no row: [chunk_data]
    returns the empty list and raises nothing (for every chunk size but
    zero, the default of [publish] among them); [publish] then returns
    normally, gives no task to the pool, so that the loader is never
    invoked, and no event of the run is a connection to the database. *)
Theorem publish_no_rows (db : nat -> oracle) (finished : list nat)
    (df : BulkInsert.dataframe) (tenant tbl schema : string) :
  df <> [] -> Forall (fun v => v = []) (values df) ->
  (forall S, S <> 0%Z -> BulkInsert.chunk_data df S = ([], Ok []))
  /\ let r := BulkInsert.publish db finished df tenant tbl schema in
     BulkInsert.main r
       = ([Print ("Publishing " ++ tbl ++ " to " ++ tenant);
           Print "Finished publishing"], Ok tt)
     /\ BulkInsert.tasks r = []
     /\ Eff.count is_connect_call
          (fst (BulkInsert.main r) ++ List.concat (BulkInsert.tasks r)) = 0.
Proof.
  intros Hne Hempty. split.
  - intros S HS. now apply chunk_data_no_rows.
  - unfold BulkInsert.publish.
    rewrite (chunk_data_no_rows df 50000 Hne Hempty) by discriminate.
    simpl. rewrite wait_all_no_task. simpl. repeat split.
Qed.

Lemma publish_no_rows_witness :
  BulkInsert.tasks
    (BulkInsert.publish (fun _ => db_ok) [] [("id", []); ("name", [])]
                        "tenant" "t" "s") = [].
Proof.
  refine (proj1 (proj2 (proj2 (publish_no_rows (fun _ => db_ok) []
            [("id", []); ("name", [])] "tenant" "t" "s" _ _)))).
  - discriminate.
  - repeat constructor.
Defined.

(* ================================================================== *)
(** * The serializer *)
(* ================================================================== *)

Section Strings.

Lemma append_assoc (a b c : string) :
  ((a ++ b) ++ c = a ++ (b ++ c))%string.
Proof. induction a as [|x a IH]; simpl; [reflexivity | now rewrite IH]. Qed.

Lemma replace_char_app old new (a b : string) :
  replace_char old new (a ++ b)
  = (replace_char old new a ++ replace_char old new b)%string.
Proof.
  induction a as [|c a IH]; simpl; [reflexivity|].
  rewrite IH.
  destruct (Ascii.eqb c old); simpl; [|reflexivity].
  symmetry. apply append_assoc.
Qed.

Lemma space_not_dquote c : is_space c = true -> Ascii.eqb c dquote = false.
Proof.
  intros Hc. destruct (Ascii.eqb_spec c dquote) as [->|]; [|reflexivity].
  discriminate Hc.
Qed.

Lemma replace_dquote_space new (p : string) :
  all_space p = true -> replace_char dquote new p = p.
Proof.
  induction p as [|c p IH]; simpl; [reflexivity|].
  intros H. apply andb_prop in H as [Hc Hp].
  now rewrite (space_not_dquote c Hc), IH.
Qed.

Lemma lstrip_space_app (p s : string) :
  all_space p = true -> lstrip (p ++ s) = lstrip s.
Proof.
  induction p as [|c p IH]; simpl; [reflexivity|].
  intros H. apply andb_prop in H as [Hc Hp]. now rewrite Hc, IH.
Qed.

Lemma lstrip_all_space (p : string) :
  all_space p = true -> lstrip p = EmptyString.
Proof.
  induction p as [|c p IH]; simpl; [reflexivity|].
  intros H. apply andb_prop in H as [Hc Hp]. now rewrite Hc, IH.
Qed.

Lemma rstrip_all_space (p : string) :
  all_space p = true -> rstrip p = EmptyString.
Proof.
  induction p as [|c p IH]; simpl; [reflexivity|].
  intros H. apply andb_prop in H as [Hc Hp]. now rewrite IH, Hc.
Qed.

Lemma rstrip_app_space (s p : string) :
  all_space p = true -> rstrip (s ++ p) = rstrip s.
Proof.
  intros Hp. induction s as [|c s IH]; simpl.
  - now apply rstrip_all_space.
  - now rewrite IH.
Qed.

Lemma strip_app_space (s p : string) :
  all_space p = true -> strip (s ++ p) = strip s.
Proof.
  intros Hp. unfold strip. induction s as [|c s IH]; simpl.
  - now rewrite lstrip_all_space.
  - destruct (is_space c); [exact IH|].
    change (String c (s ++ p)) with (String c s ++ p)%string.
    now apply rstrip_app_space.
Qed.

(** Whitespace around a text does not reach [strip]'s result. *)
Lemma strip_padded (pre core post : string) :
  all_space pre = true -> all_space post = true ->
  strip (pre ++ core ++ post) = strip core.
Proof.
  intros Hpre Hpost. unfold strip at 1.
  rewrite lstrip_space_app by assumption.
  now apply strip_app_space.
Qed.

(** Nor does it reach the field that is written. *)
Lemma field_padded (pre core post : string) :
  all_space pre = true -> all_space post = true ->
  field (PyStr (pre ++ core ++ post)) = field (PyStr core).
Proof.
  intros Hpre Hpost. unfold field, cln, str.
  rewrite !replace_char_app.
  rewrite (replace_dquote_space _ pre), (replace_dquote_space _ post)
    by assumption.
  now rewrite strip_padded.
Qed.

Lemma in_all_ascii (a : ascii) : In a all_ascii.
Proof.
  unfold all_ascii. rewrite <- (ascii_nat_embedding a).
  apply in_map. apply in_seq. pose proof (nat_ascii_bounded a). lia.
Qed.

(** The code points that [lower] sends to [b]. *)
Lemma lower_char_inv (a b : ascii) :
  lower_char a = b ->
  In a (filter (fun x => Ascii.eqb (lower_char x) b) all_ascii).
Proof.
  intros H. apply filter_In. split; [apply in_all_ascii|].
  rewrite H. apply Ascii.eqb_refl.
Qed.

End Strings.

(** A text whose lower-case form is known is one of finitely many. *)
Ltac case_variants H :=
  match type of H with
  | lower ?s = _ =>
      let a := fresh "a" in
      let Ha := fresh "Ha" in
      destruct s as [|a s]; simpl in H;
      [ try discriminate H
      | first
          [ discriminate H
          | injection H as Ha H;
            apply lower_char_inv in Ha; vm_compute in Ha;
            repeat (destruct Ha as [Ha | Ha]; [subst a|]);
            try contradiction;
            case_variants H ] ]
  end.

(** C4.  Sentinel normalization: a field whose text is NaN, null, N/A, NaT
    or the empty text, in any letter case and between any whitespace, is
    emptied by [cln], stays empty under the outer substitution and the
    removal of line ends, and so leaves nothing between the delimiters of
    its position in the payload. *)
Theorem sentinel_fields_empty (s : string) :
  sentinel_like s ->
  cln (PyStr s) = EmptyString
  /\ field (PyStr s) = EmptyString
  /\ payload [("a", [PyInt 1]); ("b", [PyStr s]); ("c", [PyInt 2])] = "1||2".
Proof.
  intros (t & pre & core & post & Ht & Hpre & Hpost & -> & Hcore).
  assert (Hfield : field (PyStr core) = EmptyString
                   /\ cln (PyStr core) = EmptyString).
  { unfold sentinel_values in Ht. simpl in Ht.
    destruct Ht as [<- | [<- | [<- | [<- | [<- | []]]]]];
      match type of Hcore with
      | _ = ?rhs =>
          let r := eval vm_compute in rhs in change rhs with r in Hcore
      end;
      case_variants Hcore; split; reflexivity. }
  destruct Hfield as [Hfield Hcln].
  assert (Hf : field (PyStr (pre ++ core ++ post)) = EmptyString)
    by (now rewrite field_padded).
  split; [|split].
  - unfold cln, str in *. rewrite !replace_char_app.
    rewrite (replace_dquote_space _ pre), (replace_dquote_space _ post)
      by assumption.
    now rewrite strip_padded.
  - exact Hf.
  - unfold payload. simpl. rewrite Hf. reflexivity.
Qed.

Lemma sentinel_fields_empty_witness : field (PyStr "  nAn ") = EmptyString.
Proof.
  refine (proj1 (proj2 (sentinel_fields_empty "  nAn " _))).
  exists "NaN", "  ", "nAn", " ". repeat split; simpl; auto.
Defined.

(* ================================================================== *)
(** * The chunk loader *)
(* ================================================================== *)






(** Without a connection there is nothing to commit or to roll back: the
    error of [connect] leaves [insert] as it is. *)
Remark insert_without_connection (db : oracle) (chunk : table)
    (tenant schema tbl : string) (e : exn) :
  db Connect = Some e ->
  BulkInsert.insert db chunk tenant schema tbl
    = ([Called Connect (Some e)], Raise e)
  /\ ProgBar.insert db chunk tbl = ([Called Connect (Some e)], Raise e).
Proof.
  intros Hconn.
  unfold BulkInsert.insert, BulkInsert.connect, ProgBar.insert,
    ProgBar.connect, with_, bind, do_call.
  rewrite Hconn. split; reflexivity.
Qed.

(* ================================================================== *)
(** * The bulk-load statement *)
(* ================================================================== *)

Section Statement.

Lemma col_of_column_list (chunk : table) :
  BulkInsert.col_of chunk = column_list (keys chunk).
Proof.
  unfold BulkInsert.col_of, column_list. f_equal. apply map_ext.
  intros x. unfold quoted_name.
  now destruct (String.eqb_spec x "order") as [->|].
Qed.

(** The statement of [publish] has the column list between its
    parentheses, for every chunk and target. *)
Lemma sql_of_statement (schema tbl : string) (chunk : table) :
  BulkInsert.sql_of schema tbl chunk
  = copy_statement (schema ++ "." ++ tbl) (column_list (keys chunk)).
Proof.
  unfold BulkInsert.sql_of, copy_statement.
  rewrite col_of_column_list. f_equal.
  rewrite !append_assoc. reflexivity.
Qed.

(** The statement of [bulk_publish] has the text of the key view there. *)
Lemma query_of_statement (tbl : string) (chunk : table) :
  ProgBar.query_of tbl chunk
  = copy_statement ("rxmedimate." ++ tbl) (str_dict_keys chunk).
Proof.
  unfold ProgBar.query_of, copy_statement. f_equal.
Qed.

Lemma length_append (a b : string) :
  String.length (a ++ b) = String.length a + String.length b.
Proof. induction a as [|x a IH]; simpl; [reflexivity | now rewrite IH]. Qed.

Lemma join_length_le (sep : string) (f g : string -> string) names :
  (forall x, String.length (f x) <= String.length (g x)) ->
  String.length (join sep (map f names))
  <= String.length (join sep (map g names)).
Proof.
  intros Hfg. induction names as [|x [|y rest] IH]; simpl in *.
  - lia.
  - apply Hfg.
  - rewrite !length_append. specialize (Hfg x). lia.
Qed.

Lemma repr_body_length (quote : ascii) (s : string) :
  String.length s <= String.length (repr_body quote s).
Proof.
  induction s as [|c s IH]; simpl; [lia|].
  rewrite length_append.
  assert (1 <= String.length (repr_char quote c)).
  { unfold repr_char.
    repeat match goal with |- context [if ?b then _ else _] => destruct b end;
      simpl; lia. }
  lia.
Qed.

Lemma quoted_name_shorter_than_repr (x : string) :
  String.length (quoted_name x) <= String.length (repr_str x).
Proof.
  unfold repr_str. cbv zeta.
  set (q := if contains squote x && negb (contains dquote x)
            then dquote else squote).
  pose proof (repr_body_length q x) as Hbody.
  rewrite !length_append. change (String.length (chr q)) with 1.
  unfold quoted_name. destruct (String.eqb x "order").
  - rewrite !length_append. change (String.length dq) with 1. lia.
  - lia.
Qed.

(** The text of the key view is longer than the column list, whatever the
    names: the two never agree. *)
Lemma str_dict_keys_not_column_list (chunk : table) :
  str_dict_keys chunk <> column_list (keys chunk).
Proof.
  intros Heq. apply (f_equal String.length) in Heq.
  unfold str_dict_keys, column_list in Heq.
  rewrite !length_append in Heq.
  pose proof (join_length_le ", " quoted_name repr_str (keys chunk)
                quoted_name_shorter_than_repr) as Hle.
  simpl in Heq. lia.
Qed.

Lemma copy_statement_length (target cols : string) :
  String.length (copy_statement target cols)
  = String.length (copy_statement target EmptyString) + String.length cols.
Proof.
  unfold copy_statement. rewrite !length_append. simpl. lia.
Qed.

End Statement.

(** C2, where the code departs from it.  For the chunk with the columns
    id and order, [publish] renders the column list as specified: the
    names joined by a comma and a space, order in double quotes.
    [bulk_publish] does not: between the parentheses of its statement
    stands the text of the key view, dict_keys(['id', 'order']), and its
    statement is not the one with the column list; no chunk at all makes
    the two agree. *)
Theorem bulk_publish_statement_lacks_column_list :
  BulkInsert.sql_of "s" "t" order_chunk
    = copy_statement "s.t" ("id, " ++ dq ++ "order" ++ dq)
  /\ column_list (keys order_chunk) = ("id, " ++ dq ++ "order" ++ dq)%string
  /\ ProgBar.query_of "t" order_chunk
    = copy_statement "rxmedimate.t" order_chunk_keys_text
  /\ ProgBar.query_of "t" order_chunk
    <> copy_statement "rxmedimate.t" (column_list (keys order_chunk))
  /\ forall (tbl : string) (chunk : table),
       ProgBar.query_of tbl chunk
       <> copy_statement ("rxmedimate." ++ tbl) (column_list (keys chunk)).
Proof.
  assert (Hall : forall (tbl : string) (chunk : table),
             ProgBar.query_of tbl chunk
             <> copy_statement ("rxmedimate." ++ tbl)
                               (column_list (keys chunk))).
  { intros tbl chunk Heq. rewrite query_of_statement in Heq.
    apply (f_equal String.length) in Heq.
    rewrite (copy_statement_length _ (str_dict_keys chunk)) in Heq.
    rewrite (copy_statement_length _ (column_list (keys chunk))) in Heq.
    pose proof (join_length_le ", " quoted_name repr_str (keys chunk)
                  quoted_name_shorter_than_repr) as Hle.
    unfold str_dict_keys, column_list in Heq.
    rewrite !length_append in Heq. simpl in Heq. lia. }
  repeat split; try reflexivity.
  - exact (Hall "t" order_chunk).
  - exact Hall.
Qed.

(** The field with embedded double quotes: each is doubled, and the
    letters are lowered. *)
Example field_he_said_hi :
  cln (PyStr he_said_hi)
    = ("he said " ++ dq ++ dq ++ "hi" ++ dq ++ dq)%string
  /\ field (PyStr he_said_hi)
    = ("he said " ++ dq ++ dq ++ "hi" ++ dq ++ dq)%string.
Proof. split; reflexivity. Qed.

(* ================================================================== *)
(** * The dispatcher *)
(* ================================================================== *)

(** Every chunk is given to the pool, and only chunks are. *)
Lemma publish_submits_every_chunk (db : nat -> oracle) (finished : list nat)
    (df : BulkInsert.dataframe) (tenant tbl schema : string) chunks :
  BulkInsert.chunk_data df 50000 = ([], Ok chunks) ->
  List.length
    (BulkInsert.tasks (BulkInsert.publish db finished df tenant tbl schema))
  = List.length chunks.
Proof.
  intros Hrun. unfold BulkInsert.publish. rewrite Hrun. simpl.
  now rewrite !length_map, length_combine, length_seq, Nat.min_id.
Qed.

(** The loop over the finished futures ends at the first one that failed
    and raises its error inside a [RuntimeError]. *)
Lemma wait_all_first_failure (results : list (result unit))
    (before after : list nat) (i : nat) (e : exn) :
  Forall (fun j => forall e', nth_error results j <> Some (Raise e')) before ->
  nth_error results i = Some (Raise e) ->
  BulkInsert.wait_all results (before ++ i :: after)
  = ([Print (exn_str e)], Raise (RuntimeError ("Error in: " ++ exn_str e) e)).
Proof.
  intros Hbefore Hi. induction before as [|j before IH]; simpl.
  - rewrite Hi. reflexivity.
  - inversion Hbefore as [|? ? Hj Hrest]; subst.
    destruct (nth_error results j) as [[u | e'] |] eqn:Ej;
      [apply IH, Hrest | exfalso; exact (Hj e' eq_refl) | apply IH, Hrest].
Qed.

(* ================================================================== *)
(** * Further properties of the chunker *)
(* ================================================================== *)

(** X1.  A chunk size of zero is refused: for every table with a column,
    [range] raises its [ValueError], which [chunk_data] prints and wraps
    in a [RuntimeWarning]; nothing is returned. *)
Theorem chunk_data_zero_size (T : table) :
  T <> [] ->
  ProgBar.chunk_data T 0
    = ([Print "Error chunking data > range() arg 3 must not be zero"],
       Raise (RuntimeWarning (ValueError "range() arg 3 must not be zero")))
  /\ BulkInsert.chunk_data T 0
    = ([Print "range() arg 3 must not be zero"],
       Raise (RuntimeWarning (ValueError "range() arg 3 must not be zero"))).
Proof.
  intros Hne. pose proof (dict_of_not_nil T Hne) as Hne'.
  unfold ProgBar.chunk_data, BulkInsert.chunk_data, BulkInsert.to_dict_list.
  split.
  - destruct T as [|[k0 v0] T']; [congruence|]. reflexivity.
  - destruct (dict_of T) as [|[k0 v0] d']; [congruence|]. reflexivity.
Qed.

Lemma chunk_data_zero_size_witness :
  snd (ProgBar.chunk_data example_table 0)
  = Raise (RuntimeWarning (ValueError "range() arg 3 must not be zero")).
Proof.
  exact (f_equal snd (proj1 (chunk_data_zero_size example_table
                                ltac:(discriminate)))).
Defined.

Lemma range_backwards (n : nat) (S : Z) :
  (S < 0)%Z -> range 0 (Z.of_nat n) S = Some [].
Proof.
  intros HS. unfold range, range_length.
  destruct (Z.eqb_spec S 0); [lia|].
  destruct (Z.ltb_spec 0 S); [lia|].
  destruct (Z.ltb_spec (Z.of_nat n) 0); [lia|]. reflexivity.
Qed.

(** X2.  A negative chunk size is not refused: for every table with a
    column, whatever its rows, [chunk_data] prints nothing, raises nothing
    and returns no chunk at all. *)
Theorem chunk_data_negative_size (T : table) (S : Z) :
  T <> [] -> (S < 0)%Z ->
  ProgBar.chunk_data T S = ([], Ok [])
  /\ BulkInsert.chunk_data T S = ([], Ok []).
Proof.
  intros Hne HS. pose proof (dict_of_not_nil T Hne) as Hne'.
  unfold ProgBar.chunk_data, BulkInsert.chunk_data, BulkInsert.to_dict_list,
    chunk_body.
  split.
  - destruct T as [|[k0 v0] T']; [congruence|].
    simpl values. cbv iota. now rewrite range_backwards.
  - destruct (dict_of T) as [|[k0 v0] d']; [congruence|].
    simpl values. cbv iota. now rewrite range_backwards.
Qed.

Lemma chunk_data_negative_size_witness :
  ProgBar.chunk_data example_table (-2) = ([], Ok []).
Proof.
  exact (proj1 (chunk_data_negative_size example_table (-2)
                  ltac:(discriminate) eq_refl)).
Defined.

Lemma ceil_div_one (N S : Z) :
  (0 < N <= S)%Z -> ceil_div N S = 1%Z.
Proof.
  intros H. unfold ceil_div.
  replace (N + S - 1)%Z with ((N - 1) + 1 * S)%Z by lia.
  rewrite Z.div_add by lia. rewrite Z.div_small by lia. reflexivity.
Qed.

Lemma chunk_at_whole (s : nat) (T : table) :
  Forall (fun v => List.length v <= s) (values T) -> chunk_at s T 0 = T.
Proof.
  intros Hlen. unfold chunk_at.
  transitivity (map (fun kv : string * list value => kv) T); [|apply map_id].
  apply map_ext_in. intros [k v] Hin. simpl. f_equal.
  apply firstn_all2. rewrite Forall_forall in Hlen. apply Hlen.
  unfold values. now apply (in_map snd) in Hin.
Qed.

(** X3.  A table that fits into one chunk is returned as it is: with
    distinct column names, columns of one length N > 0 and a chunk size of
    at least N, the result of [chunk_data] is the list that holds the
    table and nothing else. *)
Theorem chunk_data_single_chunk (T : table) (S : Z) :
  NoDup (keys T) -> equal_lengths T -> 0 < nrows T ->
  (Z.of_nat (nrows T) <= S)%Z ->
  ProgBar.chunk_data T S = ([], Ok [T])
  /\ BulkInsert.chunk_data T S = ([], Ok [T]).
Proof.
  intros Hnd Heq HN HS.
  assert (Hne : T <> []) by (intros ->; cbv in HN; lia).
  unfold ProgBar.chunk_data, BulkInsert.chunk_data, BulkInsert.to_dict_list.
  rewrite dict_of_nodup by assumption.
  rewrite chunk_body_ok by (assumption || lia).
  rewrite ceil_div_one by lia.
  change (seq 0 (Z.to_nat 1)) with [0]. simpl map.
  rewrite chunk_at_whole; [split; reflexivity|].
  eapply Forall_impl; [|exact Heq]. simpl. intros v ->. lia.
Qed.

Lemma chunk_data_single_chunk_witness :
  BulkInsert.chunk_data example_table 50000 = ([], Ok [example_table]).
Proof.
  assert (Hnd : NoDup (keys example_table)).
  { repeat constructor; simpl; intuition discriminate. }
  assert (Heq : equal_lengths example_table) by (repeat constructor).
  exact (proj2 (chunk_data_single_chunk example_table 50000 Hnd Heq
                  ltac:(unfold nrows; simpl; lia)
                  ltac:(unfold nrows; simpl; lia))).
Defined.

(** X4.  Chunk k is the row range that starts at k * S: for a table with
    a column, distinct column names and S > 0, whatever the lengths of the
    columns, [chunk_data] returns, and its k-th chunk has the column names
    of the table in their order, a column looked up in it is the slice of
    the table's column, and the rows the serializer reads from it are the
    rows from k * S up to k * S + S of the rows it would read from the
    whole table. *)
Theorem chunk_is_row_range (T : table) (S : Z) :
  NoDup (keys T) -> (0 < S)%Z -> T <> [] ->
  exists chunks,
    ProgBar.chunk_data T S = ([], Ok chunks)
    /\ BulkInsert.chunk_data T S = ([], Ok chunks)
    /\ forall k c, nth_error chunks k = Some c ->
         keys c = keys T
         /\ rows c = firstn (Z.to_nat S) (skipn (k * Z.to_nat S) (rows T))
         /\ forall name v, dict_get name T = Some v ->
              dict_get name c
              = Some (firstn (Z.to_nat S) (skipn (k * Z.to_nat S) v)).
Proof.
  intros Hnd HS Hne.
  unfold ProgBar.chunk_data, BulkInsert.chunk_data, BulkInsert.to_dict_list.
  rewrite dict_of_nodup by assumption.
  rewrite chunk_body_ok by assumption.
  eexists. split; [reflexivity|]. split; [reflexivity|].
  intros k c Hk.
  rewrite nth_error_map, nth_error_seq in Hk.
  destruct (Nat.ltb_spec k
              (Z.to_nat (ceil_div (Z.of_nat (nrows T)) S))); [|discriminate].
  cbn [option_map Nat.add] in Hk. injection Hk as <-.
  split; [apply chunk_at_keys|]. split; [apply chunk_at_rows|].
  intros name v Hget. unfold chunk_at.
  rewrite (dict_get_map
             (fun v => firstn (Z.to_nat S) (skipn (k * Z.to_nat S) v))).
  now rewrite Hget.
Qed.

Lemma chunk_is_row_range_witness :
  exists chunks,
    ProgBar.chunk_data ragged_table 2 = ([], Ok chunks)
    /\ forall k c, nth_error chunks k = Some c ->
         rows c = firstn 2 (skipn (k * 2) (rows ragged_table)).
Proof.
  assert (Hnd : NoDup (keys ragged_table)).
  { repeat constructor; simpl; intuition discriminate. }
  destruct (chunk_is_row_range ragged_table 2 Hnd eq_refl
              ltac:(discriminate)) as (chunks & Hrun & _ & Hk).
  exists chunks. split; [exact Hrun|].
  intros k c Hc. exact (proj1 (proj2 (Hk k c Hc))).
Defined.

(* ================================================================== *)
(** * Further properties of the serializer: framing *)
(* ================================================================== *)

Section Counting.

Lemma count_char_app (c : ascii) (a b : string) :
  count_char c (a ++ b) = count_char c a + count_char c b.
Proof.
  induction a as [|x a IH]; simpl; [reflexivity|]. rewrite IH. lia.
Qed.

Lemma count_char_removed (c : ascii) (s : string) :
  count_char c (replace_char c EmptyString s) = 0.
Proof.
  induction s as [|x s IH]; simpl; [reflexivity|].
  destruct (Ascii.eqb x c) eqn:E; simpl; [exact IH|].
  now rewrite E, IH.
Qed.

Lemma count_char_replace_other (c d : ascii) (new s : string) :
  Ascii.eqb d c = false -> count_char c new = 0 ->
  count_char c (replace_char d new s) = count_char c s.
Proof.
  intros Hdc Hnew. induction s as [|x s IH]; simpl; [reflexivity|].
  rewrite count_char_app, IH.
  destruct (Ascii.eqb_spec x d) as [->|Hxd].
  - now rewrite Hnew, Hdc.
  - unfold chr. simpl. lia.
Qed.

Lemma count_char_replace_self (c : ascii) (new s : string) :
  count_char c (replace_char c new s) = count_char c s * count_char c new.
Proof.
  induction s as [|x s IH]; simpl; [reflexivity|].
  rewrite count_char_app, IH.
  destruct (Ascii.eqb x c) eqn:E; simpl; [lia|].
  rewrite E. lia.
Qed.

Lemma count_char_join (c : ascii) (sep : string) (parts : list string) :
  Forall (fun p => count_char c p = 0) parts ->
  count_char c (join sep parts) = (List.length parts - 1) * count_char c sep.
Proof.
  induction parts as [|p [|q rest] IH]; intros Hall.
  - reflexivity.
  - simpl. now inversion Hall.
  - inversion Hall as [|? ? Hp Hrest]; subst.
    change (join sep (p :: q :: rest))
      with (p ++ sep ++ join sep (q :: rest))%string.
    rewrite !count_char_app, Hp, (IH Hrest). simpl. lia.
Qed.

End Counting.

(** X5.  No field breaks the framing of the rows: whatever the value, the
    text that [insert] puts into the payload for it holds neither a line
    feed nor a carriage return. *)
Theorem field_has_no_line_end (x : value) :
  count_char newline (field x) = 0 /\ count_char carriage (field x) = 0.
Proof.
  unfold field. split.
  - rewrite count_char_replace_other by reflexivity.
    apply count_char_removed.
  - apply count_char_removed.
Qed.

Lemma line_has_no_line_end (row : list value) :
  count_char newline (line row) = 0.
Proof.
  unfold line. rewrite count_char_join.
  - change (count_char newline "|") with 0. lia.
  - rewrite Forall_map. apply Forall_forall. intros x _.
    apply field_has_no_line_end.
Qed.

(** X6.  One line per row: the payload of a chunk holds exactly one line
    feed less than the chunk has rows, so that the lines of the payload
    are the rows of the chunk, with no line feed after the last; a chunk
    without rows gives the empty payload. *)
Theorem payload_line_count (chunk : table) :
  count_char newline (payload chunk) = List.length (rows chunk) - 1
  /\ (rows chunk = [] -> payload chunk = EmptyString).
Proof.
  unfold payload. fold (rows chunk). split.
  - rewrite count_char_join.
    + rewrite length_map. change (count_char newline nl) with 1. lia.
    + rewrite Forall_map. apply Forall_forall. intros row _.
      apply line_has_no_line_end.
  - intros ->. reflexivity.
Qed.

Section Joining.

Lemma join_app (sep : string) (a b : list string) :
  a <> [] -> b <> [] ->
  join sep (a ++ b) = (join sep a ++ sep ++ join sep b)%string.
Proof.
  intros Ha Hb. induction a as [|x [|y a'] IH]; [congruence| |].
  - destruct b as [|z b']; [congruence|]. reflexivity.
  - change (join sep ((x :: y :: a') ++ b))
      with (x ++ sep ++ join sep ((y :: a') ++ b))%string.
    rewrite IH by discriminate.
    change (join sep (x :: y :: a'))
      with (x ++ sep ++ join sep (y :: a'))%string.
    now rewrite !append_assoc.
Qed.

(** Joining the joined pieces is joining the whole, when no piece is
    empty. *)
Lemma join_pieces (sep : string) (pieces : list (list string)) :
  Forall (fun p => p <> []) pieces ->
  join sep (map (join sep) pieces) = join sep (List.concat pieces).
Proof.
  induction pieces as [|p [|q rest] IH]; intros Hall.
  - reflexivity.
  - simpl. now rewrite app_nil_r.
  - inversion Hall as [|? ? Hp Hrest]; subst.
    change (join sep (map (join sep) (p :: q :: rest)))
      with (join sep p ++ sep
            ++ join sep (map (join sep) (q :: rest)))%string.
    rewrite (IH Hrest).
    change (List.concat (p :: q :: rest))
      with (p ++ List.concat (q :: rest)).
    rewrite join_app; [reflexivity | assumption |].
    inversion Hrest as [|? ? Hq _]; subst. simpl.
    destruct q; [congruence | discriminate].
Qed.

End Joining.

Lemma payload_lines (chunk : table) :
  payload chunk = join nl (map line (rows chunk)).
Proof. reflexivity. Qed.

(** X7.  Loading by chunks sends what loading the whole table would send:
    for distinct column names, columns of equal length and S > 0, the
    payloads of the chunks of [chunk_data], joined by line feeds in the
    order of the chunks, are the payload of the table. *)
Theorem payload_of_chunks (T : table) (S : Z) :
  NoDup (keys T) -> equal_lengths T -> (0 < S)%Z -> T <> [] ->
  exists chunks,
    BulkInsert.chunk_data T S = ([], Ok chunks)
    /\ ProgBar.chunk_data T S = ([], Ok chunks)
    /\ join nl (map payload chunks) = payload T.
Proof.
  intros Hnd Heq HS Hne.
  unfold ProgBar.chunk_data, BulkInsert.chunk_data, BulkInsert.to_dict_list.
  rewrite dict_of_nodup by assumption.
  rewrite chunk_body_ok by assumption.
  eexists. split; [reflexivity|]. split; [reflexivity|].
  set (s := Z.to_nat S). set (m := Z.to_nat (ceil_div (Z.of_nat (nrows T)) S)).
  assert (Hrows : List.length (rows T) = nrows T).
  { unfold rows. apply zip_star_length; [|exact Heq].
    unfold values. destruct T; [congruence | discriminate]. }
  rewrite map_map.
  rewrite (map_ext _ (fun k => join nl (firstn s (skipn (k * s)
                                                (map line (rows T)))))).
  2:{ intros k. rewrite payload_lines, chunk_at_rows.
      now rewrite skipn_map, firstn_map. }
  rewrite <- (map_map (fun k => firstn s (skipn (k * s) (map line (rows T))))
                      (join nl)).
  rewrite join_pieces.
  - rewrite concat_pieces, payload_lines. f_equal.
    apply firstn_all2. rewrite length_map, Hrows.
    apply ceil_div_cover. exact HS.
  - rewrite Forall_map. apply Forall_forall. intros k Hk.
    apply in_seq in Hk.
    assert (Hlt : k * s < nrows T).
    { destruct (ceil_div_bounds (Z.of_nat (nrows T)) S ltac:(lia) HS)
        as [(H0 & H1 & H2) | (H0 & H1)]; [|unfold m in Hk; lia].
      unfold m, s in *. nia. }
    intros Hnil. apply (f_equal (@List.length string)) in Hnil.
    rewrite length_firstn, length_skipn, length_map, Hrows in Hnil.
    simpl in Hnil. unfold s in *. lia.
Qed.

Lemma payload_of_chunks_witness :
  join nl (map payload [example_chunk_1; example_chunk_2])
  = payload example_table.
Proof.
  assert (Hnd : NoDup (keys example_table)).
  { repeat constructor; simpl; intuition discriminate. }
  assert (Heq : equal_lengths example_table) by (repeat constructor).
  destruct (payload_of_chunks example_table 2 Hnd Heq eq_refl
              ltac:(discriminate)) as (chunks & Hrun & _ & Hjoin).
  injection Hrun as <-. exact Hjoin.
Defined.

(* ================================================================== *)
(** * Further properties of the serializer: the sanitizer *)
(* ================================================================== *)

Section Sanitizer.

Lemma ascii_forall (P : ascii -> bool) :
  forallb P all_ascii = true -> forall a, P a = true.
Proof.
  intros H a. rewrite forallb_forall in H. apply H, in_all_ascii.
Qed.

Lemma lower_char_idem (a : ascii) : lower_char (lower_char a) = lower_char a.
Proof.
  apply Ascii.eqb_eq.
  apply (ascii_forall (fun a => Ascii.eqb (lower_char (lower_char a))
                                          (lower_char a))).
  vm_compute. reflexivity.
Qed.

Lemma is_space_lower (a : ascii) : is_space (lower_char a) = is_space a.
Proof.
  apply Bool.eqb_prop.
  apply (ascii_forall (fun a => Bool.eqb (is_space (lower_char a))
                                         (is_space a))).
  vm_compute. reflexivity.
Qed.

Lemma lstrip_lower (s : string) : lstrip (lower s) = lower (lstrip s).
Proof.
  induction s as [|x s IH]; simpl; [reflexivity|].
  rewrite is_space_lower. now destruct (is_space x).
Qed.

Lemma all_space_lower (s : string) : all_space (lower s) = all_space s.
Proof.
  induction s as [|x s IH]; simpl; [reflexivity|].
  now rewrite is_space_lower, IH.
Qed.

Lemma match_ignorecase_lower (pat s : string) :
  match_ignorecase pat (lower s) = option_map lower (match_ignorecase pat s).
Proof.
  revert s. induction pat as [|p pat IH]; intros s; simpl.
  - reflexivity.
  - destruct s as [|x s]; simpl; [reflexivity|].
    rewrite lower_char_idem.
    destruct (Ascii.eqb (lower_char p) (lower_char x)); [apply IH|reflexivity].
Qed.

(** The pattern does not tell a text from its lower-case form. *)
Lemma comp_match_lower (s : string) : comp_match (lower s) = comp_match s.
Proof.
  unfold comp_match. rewrite lstrip_lower.
  induction comp_alternatives as [|alt alts IH]; simpl; [reflexivity|].
  rewrite IH, match_ignorecase_lower.
  destruct (match_ignorecase alt (lstrip s)); simpl; [|reflexivity].
  now rewrite all_space_lower.
Qed.

Lemma cln_not_sentinel (x : value) : comp_match (cln x) = false.
Proof.
  assert (H : forall t, comp_match (lower (comp_sub t)) = false).
  { intros t. unfold comp_sub. destruct (comp_match t) eqn:E.
    - reflexivity.
    - now rewrite comp_match_lower. }
  destruct x; [reflexivity | apply H | apply H | apply H].
Qed.

Lemma match_ignorecase_split (pat s rest : string) :
  match_ignorecase pat s = Some rest ->
  exists pre, s = (pre ++ rest)%string /\ lower pre = lower pat.
Proof.
  revert s. induction pat as [|p pat IH]; intros s; simpl.
  - intros H. injection H as <-. now exists EmptyString.
  - destruct s as [|x s]; [discriminate|].
    destruct (Ascii.eqb_spec (lower_char p) (lower_char x)) as [Hpx|];
      [|discriminate].
    intros H. destruct (IH s H) as (pre & -> & Hpre).
    exists (String x pre). simpl. now rewrite Hpre, Hpx.
Qed.

Variable c : ascii.
Hypothesis Hforeign : foreign_char c = true.

Lemma foreign_not_space : is_space c = false.
Proof.
  unfold foreign_char in Hforeign.
  apply andb_prop in Hforeign as [H _]. apply andb_prop in H as [H _].
  now apply negb_true_iff in H.
Qed.

Lemma foreign_lower (x : ascii) :
  Ascii.eqb (lower_char x) c = Ascii.eqb x c.
Proof.
  unfold foreign_char in Hforeign.
  apply andb_prop in Hforeign as [H _]. apply andb_prop in H as [_ H].
  apply Bool.eqb_prop.
  exact (ascii_forall
           (fun x => Bool.eqb (Ascii.eqb (lower_char x) c) (Ascii.eqb x c))
           H x).
Qed.

Lemma foreign_alternative (alt : string) :
  In alt comp_alternatives -> count_char c (lower alt) = 0.
Proof.
  unfold foreign_char in Hforeign.
  apply andb_prop in Hforeign as [_ H].
  rewrite forallb_forall in H. intros Hin.
  now apply Nat.eqb_eq, H.
Qed.

Lemma space_is_not_foreign (x : ascii) :
  is_space x = true -> Ascii.eqb x c = false.
Proof.
  intros Hx. destruct (Ascii.eqb_spec x c) as [->|]; [|reflexivity].
  rewrite foreign_not_space in Hx. discriminate.
Qed.

Lemma count_char_lower (s : string) :
  count_char c (lower s) = count_char c s.
Proof.
  induction s as [|x s IH]; simpl; [reflexivity|].
  now rewrite foreign_lower, IH.
Qed.

Lemma count_char_all_space (s : string) :
  all_space s = true -> count_char c s = 0.
Proof.
  induction s as [|x s IH]; simpl; [reflexivity|].
  intros H. apply andb_prop in H as [Hx Hs].
  now rewrite (space_is_not_foreign x Hx), IH.
Qed.

Lemma count_char_lstrip (s : string) :
  count_char c (lstrip s) = count_char c s.
Proof.
  induction s as [|x s IH]; simpl; [reflexivity|].
  destruct (is_space x) eqn:Hx; [|reflexivity].
  now rewrite IH, (space_is_not_foreign x Hx).
Qed.

Lemma count_char_rstrip (s : string) :
  count_char c (rstrip s) = count_char c s.
Proof.
  induction s as [|x s IH]; simpl; [reflexivity|].
  destruct (rstrip s) as [|y r'].
  - simpl in IH. rewrite <- IH.
    destruct (is_space x) eqn:Hx; simpl.
    + now rewrite (space_is_not_foreign x Hx).
    + reflexivity.
  - rewrite <- IH. reflexivity.
Qed.

Lemma count_char_strip (s : string) :
  count_char c (strip s) = count_char c s.
Proof.
  unfold strip. now rewrite count_char_rstrip, count_char_lstrip.
Qed.

(** A text the pattern matches holds no foreign code point. *)
Lemma comp_match_count (t : string) :
  comp_match t = true -> count_char c t = 0.
Proof.
  unfold comp_match. intros H.
  apply existsb_exists in H as (alt & Hin & H).
  destruct (match_ignorecase alt (lstrip t)) as [rest|] eqn:E;
    [|discriminate].
  destruct (match_ignorecase_split _ _ _ E) as (pre & Hsplit & Hpre).
  rewrite <- count_char_lstrip, Hsplit, count_char_app.
  rewrite (count_char_all_space rest H).
  rewrite <- (count_char_lower pre), Hpre.
  rewrite (foreign_alternative alt Hin). reflexivity.
Qed.

Lemma count_char_comp_sub_lower (t : string) :
  count_char c (lower (comp_sub t)) = count_char c t.
Proof.
  unfold comp_sub. destruct (comp_match t) eqn:E.
  - rewrite (comp_match_count t E). reflexivity.
  - apply count_char_lower.
Qed.

End Sanitizer.

Lemma foreign_pipe : foreign_char pipe = true.
Proof. vm_compute. reflexivity. Qed.

Lemma foreign_dquote : foreign_char dquote = true.
Proof. vm_compute. reflexivity. Qed.

Lemma field_without_outer_sub (x : value) :
  field x
  = replace_char carriage EmptyString
      (replace_char newline EmptyString (cln x)).
Proof.
  unfold field, comp_sub. now rewrite cln_not_sentinel.
Qed.

(** X8.  The second substitution of the pattern never applies: what [cln]
    returns is never matched by the pattern, for any value, so a field of
    the payload is the result of [cln] without its line feeds and carriage
    returns. *)
Theorem outer_substitution_is_idle (x : value) :
  comp_match (cln x) = false
  /\ comp_sub (cln x) = cln x
  /\ field x
     = replace_char carriage EmptyString
         (replace_char newline EmptyString (cln x)).
Proof.
  split; [apply cln_not_sentinel|]. split.
  - unfold comp_sub. now rewrite cln_not_sentinel.
  - apply field_without_outer_sub.
Qed.

(** X9.  The delimiter is never escaped and no double quote is lost: the
    field written for a text holds as many pipes as the text, and twice as
    many double quotes. *)
Theorem field_keeps_delimiters (s : string) :
  count_char pipe (field (PyStr s)) = count_char pipe s
  /\ count_char dquote (field (PyStr s)) = 2 * count_char dquote s.
Proof.
  rewrite field_without_outer_sub.
  rewrite !count_char_replace_other by reflexivity.
  unfold cln, str. split.
  - rewrite (count_char_comp_sub_lower pipe foreign_pipe).
    rewrite (count_char_strip pipe foreign_pipe).
    now rewrite count_char_replace_other by reflexivity.
  - rewrite (count_char_comp_sub_lower dquote foreign_dquote).
    rewrite (count_char_strip dquote foreign_dquote).
    rewrite count_char_replace_self.
    change (count_char dquote (dq ++ dq)) with 2. lia.
Qed.

Section NormalForm.

Lemma replace_char_absent (d : ascii) (new s : string) :
  count_char d s = 0 -> replace_char d new s = s.
Proof.
  induction s as [|x s IH]; simpl; [reflexivity|].
  destruct (Ascii.eqb x d); simpl; [discriminate|].
  intros H. now rewrite IH.
Qed.

Lemma dquote_not_space : is_space dquote = false.
Proof. reflexivity. Qed.

Lemma lstrip_replace_dquote (s : string) :
  lstrip (replace_char dquote (dq ++ dq) s)
  = replace_char dquote (dq ++ dq) (lstrip s).
Proof.
  induction s as [|x s IH]; simpl; [reflexivity|].
  destruct (Ascii.eqb x dquote) eqn:Hx.
  - apply Ascii.eqb_eq in Hx. subst x. reflexivity.
  - simpl. destruct (is_space x) eqn:Hsp; [exact IH|].
    simpl. now rewrite Hx.
Qed.

Lemma rstrip_cons_nonspace (x : ascii) (r : string) :
  is_space x = false -> rstrip (String x r) = String x (rstrip r).
Proof.
  intros Hx. simpl. rewrite Hx. now destruct (rstrip r).
Qed.

Lemma rstrip_cons_space (x : ascii) (r : string) :
  is_space x = true ->
  rstrip (String x r)
  = match rstrip r with
    | EmptyString => EmptyString
    | String _ _ => String x (rstrip r)
    end.
Proof.
  intros Hx. simpl. rewrite Hx. now destruct (rstrip r).
Qed.

Lemma replace_char_cons (d : ascii) (new : string) (x : ascii) (s : string) :
  replace_char d new (String x s)
  = ((if Ascii.eqb x d then new else chr x) ++ replace_char d new s)%string.
Proof. reflexivity. Qed.

Lemma rstrip_replace_dquote (s : string) :
  rstrip (replace_char dquote (dq ++ dq) s)
  = replace_char dquote (dq ++ dq) (rstrip s).
Proof.
  induction s as [|x s IH]; [reflexivity|].
  rewrite replace_char_cons.
  destruct (is_space x) eqn:Hsp.
  - (* a whitespace is kept as it is by the doubling *)
    assert (Hx : Ascii.eqb x dquote = false) by now apply space_not_dquote.
    rewrite Hx. change (chr x ++ ?t)%string with (String x t).
    rewrite !rstrip_cons_space by assumption. rewrite IH.
    destruct (rstrip s) as [|y r']; [reflexivity|].
    rewrite (replace_char_cons dquote (dq ++ dq) x), Hx.
    rewrite (replace_char_cons dquote (dq ++ dq) y).
    destruct (Ascii.eqb y dquote); reflexivity.
  - rewrite (rstrip_cons_nonspace x s Hsp).
    rewrite (replace_char_cons dquote (dq ++ dq) x).
    destruct (Ascii.eqb x dquote) eqn:Hx.
    + change ((dq ++ dq) ++ ?t)%string with (String dquote (String dquote t)).
      rewrite !rstrip_cons_nonspace by reflexivity. now rewrite IH.
    + change (chr x ++ ?t)%string with (String x t).
      rewrite rstrip_cons_nonspace by assumption. now rewrite IH.
Qed.

Lemma strip_replace_dquote (s : string) :
  strip (replace_char dquote (dq ++ dq) s)
  = replace_char dquote (dq ++ dq) (strip s).
Proof.
  unfold strip. now rewrite lstrip_replace_dquote, rstrip_replace_dquote.
Qed.

Lemma lower_app (a b : string) :
  lower (a ++ b) = (lower a ++ lower b)%string.
Proof. induction a as [|x a IH]; simpl; [reflexivity | now rewrite IH]. Qed.

Lemma lower_replace_dquote (s : string) :
  lower (replace_char dquote (dq ++ dq) s)
  = replace_char dquote (dq ++ dq) (lower s).
Proof.
  induction s as [|x s IH]; [reflexivity|].
  rewrite replace_char_cons, lower_app, IH.
  change (lower (String x s)) with (String (lower_char x) (lower s)).
  rewrite replace_char_cons, (foreign_lower dquote foreign_dquote x).
  now destruct (Ascii.eqb x dquote).
Qed.

Lemma comp_match_replace_dquote (t : string) :
  comp_match (replace_char dquote (dq ++ dq) t) = comp_match t.
Proof.
  destruct (Nat.eq_dec (count_char dquote t) 0) as [Hnone | Hsome].
  - now rewrite replace_char_absent.
  - assert (Hdoubled :
      count_char dquote (replace_char dquote (dq ++ dq) t) <> 0).
    { rewrite count_char_replace_self.
      change (count_char dquote (dq ++ dq)) with 2. lia. }
    destruct (comp_match t) eqn:E1;
      [apply (comp_match_count dquote foreign_dquote) in E1; contradiction|].
    destruct (comp_match (replace_char dquote (dq ++ dq) t)) eqn:E2;
      [|reflexivity].
    apply (comp_match_count dquote foreign_dquote) in E2. contradiction.
Qed.

End NormalForm.

(** X10.  What [cln] makes of a text: the empty text when the text without
    its surrounding whitespace is matched by the pattern, and otherwise
    that text in lower case with every double quote doubled.  The order in
    which [cln] doubles, strips, matches and lowers does not show. *)
Theorem cln_normal_form (s : string) :
  cln (PyStr s)
  = if comp_match (strip s) then EmptyString
    else replace_char dquote (dq ++ dq) (lower (strip s)).
Proof.
  unfold cln, str, comp_sub.
  rewrite strip_replace_dquote, comp_match_replace_dquote.
  destruct (comp_match (strip s)); [reflexivity|].
  apply lower_replace_dquote.
Qed.

Section Idempotence.

Lemma lower_idem (s : string) : lower (lower s) = lower s.
Proof.
  induction s as [|x s IH]; simpl; [reflexivity|].
  now rewrite lower_char_idem, IH.
Qed.

Lemma rstrip_lower (s : string) : rstrip (lower s) = lower (rstrip s).
Proof.
  induction s as [|x s IH]; simpl; [reflexivity|].
  rewrite IH, is_space_lower.
  destruct (rstrip s); simpl; [|reflexivity].
  now destruct (is_space x).
Qed.

Lemma strip_lower (s : string) : strip (lower s) = lower (strip s).
Proof. unfold strip. now rewrite lstrip_lower, rstrip_lower. Qed.

Lemma rstrip_idem (s : string) : rstrip (rstrip s) = rstrip s.
Proof.
  induction s as [|x s IH]; [reflexivity|].
  destruct (is_space x) eqn:Hx.
  - rewrite rstrip_cons_space by assumption.
    destruct (rstrip s) as [|y r'] eqn:E; [reflexivity|].
    rewrite rstrip_cons_space by assumption. now rewrite IH.
  - rewrite !rstrip_cons_nonspace by assumption. now rewrite IH.
Qed.

Lemma lstrip_rstrip_lstrip (s : string) :
  lstrip (rstrip (lstrip s)) = rstrip (lstrip s).
Proof.
  induction s as [|x s IH]; simpl; [reflexivity|].
  destruct (is_space x) eqn:Hx; [exact IH|].
  rewrite rstrip_cons_nonspace by assumption. simpl. now rewrite Hx.
Qed.

Lemma strip_idem (s : string) : strip (strip s) = strip s.
Proof.
  unfold strip. now rewrite lstrip_rstrip_lstrip, rstrip_idem.
Qed.

Variable c : ascii.
Hypothesis Hlower :
  forallb (fun x => Bool.eqb (Ascii.eqb (lower_char x) c) (Ascii.eqb x c))
          all_ascii = true.

Lemma absent_lower (s : string) :
  count_char c s = 0 -> count_char c (lower s) = 0.
Proof.
  induction s as [|x s IH]; simpl; [reflexivity|].
  rewrite (Bool.eqb_prop _ _ (ascii_forall _ Hlower x)).
  destruct (Ascii.eqb x c); [discriminate|]. exact IH.
Qed.

Lemma absent_lstrip (s : string) :
  count_char c s = 0 -> count_char c (lstrip s) = 0.
Proof.
  induction s as [|x s IH]; simpl; [reflexivity|].
  destruct (is_space x); [|auto].
  destruct (Ascii.eqb x c); [discriminate|]. exact IH.
Qed.

Lemma absent_rstrip (s : string) :
  count_char c s = 0 -> count_char c (rstrip s) = 0.
Proof.
  induction s as [|x s IH]; simpl; [reflexivity|].
  destruct (Ascii.eqb x c) eqn:E; [discriminate|]. simpl. intros H.
  specialize (IH H). destruct (rstrip s) as [|y r'].
  - destruct (is_space x); simpl; [reflexivity | now rewrite E].
  - simpl in IH. simpl. now rewrite E.
Qed.

Lemma absent_cln (s : string) :
  count_char dquote s = 0 -> count_char c s = 0 ->
  count_char c (cln (PyStr s)) = 0.
Proof.
  intros Hdq Hc. unfold cln, str, comp_sub.
  rewrite replace_char_absent by assumption.
  destruct (comp_match (strip s)); [reflexivity|].
  apply absent_lower. unfold strip. now apply absent_rstrip, absent_lstrip.
Qed.

End Idempotence.

Lemma lower_keeps_newline :
  forallb (fun x => Bool.eqb (Ascii.eqb (lower_char x) newline)
                             (Ascii.eqb x newline)) all_ascii = true.
Proof. vm_compute. reflexivity. Qed.

Lemma lower_keeps_carriage :
  forallb (fun x => Bool.eqb (Ascii.eqb (lower_char x) carriage)
                             (Ascii.eqb x carriage)) all_ascii = true.
Proof. vm_compute. reflexivity. Qed.

Lemma cln_twice (s : string) :
  count_char dquote s = 0 -> cln (PyStr (cln (PyStr s))) = cln (PyStr s).
Proof.
  intros Hdq. rewrite (cln_normal_form s).
  assert (Hclean : count_char dquote (lower (strip s)) = 0).
  { rewrite (count_char_lower dquote foreign_dquote).
    now rewrite (count_char_strip dquote foreign_dquote). }
  destruct (comp_match (strip s)) eqn:E; [reflexivity|].
  rewrite replace_char_absent by assumption.
  rewrite cln_normal_form.
  rewrite strip_lower, strip_idem, comp_match_lower, E, lower_idem.
  now rewrite replace_char_absent by assumption.
Qed.

(** X11.  Sanitizing what was sanitized changes nothing, for a text
    without double quotes: [cln] of the result of [cln] is that result,
    and when the text has no line feed or carriage return either, the
    field written for the written field is the written field. *)
Theorem sanitizing_is_idempotent (s : string) :
  count_char dquote s = 0 ->
  cln (PyStr (cln (PyStr s))) = cln (PyStr s)
  /\ (count_char newline s = 0 -> count_char carriage s = 0 ->
      field (PyStr (field (PyStr s))) = field (PyStr s)).
Proof.
  intros Hdq. split; [now apply cln_twice|].
  intros Hnl Hcr.
  assert (Hfield : field (PyStr s) = cln (PyStr s)).
  { rewrite field_without_outer_sub.
    rewrite (replace_char_absent newline)
      by (now apply (absent_cln newline lower_keeps_newline)).
    now rewrite (replace_char_absent carriage)
      by (now apply (absent_cln carriage lower_keeps_carriage)). }
  rewrite Hfield, field_without_outer_sub, cln_twice by assumption.
  rewrite (replace_char_absent newline)
    by (now apply (absent_cln newline lower_keeps_newline)).
  now rewrite (replace_char_absent carriage)
    by (now apply (absent_cln carriage lower_keeps_carriage)).
Qed.

Lemma sanitizing_is_idempotent_witness :
  cln (PyStr (cln (PyStr "  Alice B. "))) = cln (PyStr "  Alice B. ").
Proof.
  exact (proj1 (sanitizing_is_idempotent "  Alice B. " eq_refl)).
Defined.

(* ================================================================== *)
(** * Further properties of the chunk loader *)
(* ================================================================== *)

(** Case analysis on the answers of the client, innermost call first. *)
Ltac client_answers db :=
  repeat match goal with
         | |- context [db ?c] =>
             lazymatch c with
             | context [db _] => fail
             | _ => let E := fresh "E" in destruct (db c) eqn:E
             end
         end.

Ltac insert_cases db :=
  unfold load_protocol, scoped_release, written_once, all_return, load_ok,
    clean_load, stream_ok, first_failure, returns, written,
    with_, try_except, bind, do_call, print, raise, ret, Eff.count;
  client_answers db;
  cbn [negb] in *;
  cbn [fst snd app filter flat_map last List.length negb andb
       is_conn_exit is_copy_exit];
  repeat split; intros; (congruence || discriminate).

Ltac both_inserts db :=
  unfold BulkInsert.insert, BulkInsert.connect, ProgBar.insert,
    ProgBar.connect;
  match goal with
  | |- context [BulkInsert.sql_of ?a ?b ?c] =>
      generalize (BulkInsert.sql_of a b c)
  end;
  match goal with
  | |- context [ProgBar.query_of ?a ?b] => generalize (ProgBar.query_of a b)
  end;
  match goal with
  | |- context [payload ?c] => generalize (payload c)
  end;
  intros val query sql; cbv zeta; split; insert_cases db.

(** X12.  [insert] swallows no error: it returns normally exactly when
    every call on the client returned, from the connection to its release,
    and then its events are, in this order: connect, cursor, the
    statement, one write of the payload, the end of the copy block, commit
    and the release of the connection.  In both files. *)
Theorem insert_returns_iff_all_calls_return (db : oracle) (chunk : table)
    (tenant schema tbl : string) :
  load_protocol db (BulkInsert.sql_of schema tbl chunk) (payload chunk)
    (BulkInsert.insert db chunk tenant schema tbl)
  /\ load_protocol db (ProgBar.query_of tbl chunk) (payload chunk)
    (ProgBar.insert db chunk tbl).
Proof. both_inserts db. Qed.

(** X13.  The scoped resources are released on every path: once [connect]
    has returned, the connection is left through its exit exactly once,
    as the last event of [insert], with the flag that tells whether the
    load failed; and the copy block is left through its exit exactly once
    when it was entered, and not otherwise.  In both files. *)
Theorem insert_releases_what_it_holds (db : oracle) (chunk : table)
    (tenant schema tbl : string) :
  db Connect = None ->
  scoped_release db (BulkInsert.sql_of schema tbl chunk) (payload chunk)
    (BulkInsert.insert db chunk tenant schema tbl)
  /\ scoped_release db (ProgBar.query_of tbl chunk) (payload chunk)
    (ProgBar.insert db chunk tbl).
Proof. intros Hconn. revert Hconn. both_inserts db. Qed.

(** X14.  The payload is handed to the writer once or never: once when
    connection, cursor and statement returned, whatever follows, and not
    at all when one of them raised; no other text is ever written.  In
    both files. *)
Theorem insert_writes_payload_once (db : oracle) (chunk : table)
    (tenant schema tbl : string) :
  written_once db (BulkInsert.sql_of schema tbl chunk) (payload chunk)
    (BulkInsert.insert db chunk tenant schema tbl)
  /\ written_once db (ProgBar.query_of tbl chunk) (payload chunk)
    (ProgBar.insert db chunk tbl).
Proof. both_inserts db. Qed.

Lemma insert_releases_what_it_holds_witness :
  db_write_fails Connect = None
  /\ scoped_release db_write_fails
       (BulkInsert.sql_of "s" "t" example_chunk_1) (payload example_chunk_1)
       (BulkInsert.insert db_write_fails example_chunk_1 "tenant" "s" "t").
Proof.
  split; [reflexivity|].
  apply (insert_releases_what_it_holds db_write_fails example_chunk_1
           "tenant" "s" "t").
  reflexivity.
Defined.

(* ================================================================== *)
(** * Further properties of the dispatcher *)
(* ================================================================== *)

Section Dispatcher.

Lemma insert_clean (db : oracle) (chunk : table) (tenant schema tbl : string) :
  (forall c, db c = None) ->
  BulkInsert.insert db chunk tenant schema tbl
  = (clean_load (BulkInsert.sql_of schema tbl chunk) (payload chunk), Ok tt).
Proof.
  intros Hok.
  unfold BulkInsert.insert, BulkInsert.connect, with_, try_except, bind,
    do_call, ret. cbv zeta.
  rewrite !Hok. reflexivity.
Qed.

Lemma map_numbered {A B : Type} (f : nat -> A -> B) (g : A -> B)
    (start : nat) (l : list A) :
  (forall i a, f i a = g a) ->
  map (fun ia => f (fst ia) (snd ia)) (combine (seq start (List.length l)) l)
  = map g l.
Proof.
  intros Hfg. revert start.
  induction l as [|a l IH]; intros start; simpl; [reflexivity|].
  now rewrite Hfg, IH.
Qed.

Lemma wait_all_none_failed (results : list (result unit))
    (finished : list nat) :
  Forall (fun r => r = Ok tt) results ->
  BulkInsert.wait_all results finished = ([], Ok tt).
Proof.
  intros Hok. induction finished as [|i rest IH]; simpl; [reflexivity|].
  destruct (nth_error results i) as [[u | e] |] eqn:E; try exact IH.
  apply nth_error_In in E. rewrite Forall_forall in Hok.
  specialize (Hok _ E). discriminate.
Qed.

End Dispatcher.

Lemma publish_clean_run (db : nat -> oracle) (finished : list nat)
    (df : BulkInsert.dataframe) (tenant tbl schema : string)
    (chunks : list table) :
  (forall i c, db i c = None) ->
  BulkInsert.chunk_data df 50000 = ([], Ok chunks) ->
  let r := BulkInsert.publish db finished df tenant tbl schema in
  BulkInsert.main r
    = ([Print ("Publishing " ++ tbl ++ " to " ++ tenant);
        Print "Finished publishing"], Ok tt)
  /\ BulkInsert.tasks r
     = map (fun c => clean_load (BulkInsert.sql_of schema tbl c) (payload c))
           chunks
  /\ map written (BulkInsert.tasks r) = map (fun c => [payload c]) chunks
  /\ Forall (fun t => Eff.count is_commit_done t = 1
                      /\ Eff.count is_rollback_call t = 0)
            (BulkInsert.tasks r).
Proof.
  intros Hok Hrun. cbv zeta. unfold BulkInsert.publish. rewrite Hrun.
  cbn [bind print fst snd app BulkInsert.main BulkInsert.tasks].
  set (futures := map _ (combine _ chunks)).
  assert (Hres : map snd futures = map (fun _ => Ok tt) chunks).
  { unfold futures. rewrite map_map.
    apply (map_numbered
             (fun i c => snd (BulkInsert.insert (db i) c tenant schema tbl))).
    intros i c. now rewrite insert_clean. }
  assert (Htasks : map fst futures
                   = map (fun c => clean_load (BulkInsert.sql_of schema tbl c)
                                              (payload c)) chunks).
  { unfold futures. rewrite map_map.
    apply (map_numbered
             (fun i c => fst (BulkInsert.insert (db i) c tenant schema tbl))).
    intros i c. now rewrite insert_clean. }
  rewrite Hres, Htasks.
  rewrite wait_all_none_failed
    by (rewrite Forall_map; apply Forall_forall; reflexivity).
  split; [reflexivity|]. split; [reflexivity|]. split.
  - rewrite map_map. reflexivity.
  - rewrite Forall_map. apply Forall_forall. intros c _. split; reflexivity.
Qed.

Lemma chunk_data_default_returns (df : BulkInsert.dataframe) :
  df <> [] ->
  exists chunks, BulkInsert.chunk_data df 50000 = ([], Ok chunks).
Proof.
  intros Hne. unfold BulkInsert.chunk_data, BulkInsert.to_dict_list.
  rewrite chunk_body_ok;
    [eexists; reflexivity
    | apply dict_of_keys_nodup
    | now apply dict_of_not_nil
    | reflexivity].
Qed.

(** X15.  For a table with at least one column, when no call on the
    client fails, [publish] loads every chunk once and returns:
    [chunk_data] returns its chunks, and whatever the order in which the
    tasks finish, [publish] prints its two lines and raises nothing,
    there is one task per chunk, in the order of the chunks, the task of
    a chunk writes the payload of that chunk and nothing else, commits
    once and never rolls back. *)
Theorem publish_loads_every_chunk (db : nat -> oracle) (finished : list nat)
    (df : BulkInsert.dataframe) (tenant tbl schema : string) :
  (forall i c, db i c = None) -> df <> [] ->
  exists chunks,
    BulkInsert.chunk_data df 50000 = ([], Ok chunks)
    /\ let r := BulkInsert.publish db finished df tenant tbl schema in
       BulkInsert.main r
         = ([Print ("Publishing " ++ tbl ++ " to " ++ tenant);
             Print "Finished publishing"], Ok tt)
       /\ BulkInsert.tasks r
          = map (fun c => clean_load (BulkInsert.sql_of schema tbl c)
                                     (payload c))
                chunks
       /\ map written (BulkInsert.tasks r)
          = map (fun c => [payload c]) chunks
       /\ Forall (fun t => Eff.count is_commit_done t = 1
                           /\ Eff.count is_rollback_call t = 0)
                 (BulkInsert.tasks r).
Proof.
  intros Hok Hne.
  destruct (chunk_data_default_returns df Hne) as (chunks & Hrun).
  exists chunks. split; [exact Hrun|].
  exact (publish_clean_run db finished df tenant tbl schema chunks Hok Hrun).
Qed.

Lemma publish_loads_every_chunk_witness :
  exists chunks,
    BulkInsert.chunk_data example_table 50000 = ([], Ok chunks)
    /\ map written
         (BulkInsert.tasks
            (BulkInsert.publish (fun _ => db_ok) [0] example_table
                                "tenant" "t" "s"))
       = map (fun c => [payload c]) chunks.
Proof.
  destruct (publish_loads_every_chunk (fun _ => db_ok) [0] example_table
              "tenant" "t" "s" (fun _ _ => eq_refl) ltac:(discriminate))
    as (chunks & Hrun & _ & _ & Hwritten & _).
  exists chunks. split; [exact Hrun | exact Hwritten].
Defined.

(** X16.  [publish] reports the first failure in the order of completion
    and only that one: when the futures that finish before future i did
    not fail and the task of future i raised e, [publish] prints e, raises
    a [RuntimeError] with e as its cause, and does not print its closing
    line; every chunk has been given to the pool all the same. *)
Theorem publish_raises_first_failure (db : nat -> oracle)
    (before after : list nat) (i : nat) (e : exn)
    (df : BulkInsert.dataframe) (tenant tbl schema : string)
    (chunks : list table) :
  BulkInsert.chunk_data df 50000 = ([], Ok chunks) ->
  Forall (fun j => forall e',
            nth_error (task_results db chunks tenant schema tbl) j
            <> Some (Raise e')) before ->
  nth_error (task_results db chunks tenant schema tbl) i = Some (Raise e) ->
  let r := BulkInsert.publish db (before ++ i :: after) df tenant tbl schema in
  BulkInsert.main r
    = ([Print ("Publishing " ++ tbl ++ " to " ++ tenant);
        Print (exn_str e)],
       Raise (RuntimeError ("Error in: " ++ exn_str e) e))
  /\ List.length (BulkInsert.tasks r) = List.length chunks.
Proof.
  intros Hrun Hbefore Hi. cbv zeta. unfold BulkInsert.publish. rewrite Hrun.
  cbn [bind print fst snd app BulkInsert.main BulkInsert.tasks].
  rewrite map_map.
  change (map (fun x => snd (BulkInsert.insert (db (fst x)) (snd x)
                               tenant schema tbl))
              (combine (seq 0 (List.length chunks)) chunks))
    with (task_results db chunks tenant schema tbl).
  rewrite (wait_all_first_failure _ before after i e Hbefore Hi).
  split; [reflexivity|].
  now rewrite !length_map, length_combine, length_seq, Nat.min_id.
Qed.

Lemma publish_raises_first_failure_witness :
  snd (BulkInsert.main
         (BulkInsert.publish (fun _ => db_write_fails) [0] example_table
                             "tenant" "t" "s"))
  = Raise (RuntimeError "Error in: Error in: connection lost"
             (RuntimeError "Error in: connection lost"
                (DatabaseError "connection lost"))).
Proof.
  refine (f_equal snd (proj1
           (publish_raises_first_failure (fun _ => db_write_fails) [] [] 0
              (RuntimeError "Error in: connection lost"
                 (DatabaseError "connection lost"))
              example_table "tenant" "t" "s" [example_table]
              eq_refl _ eq_refl))).
  constructor.
Defined.

(** X17.  A table without columns never reaches the database: [publish]
    prints its opening line and the error of the chunker, raises the
    [RuntimeWarning] of [chunk_data] unchanged, and gives no task to the
    pool, whatever the client would answer. *)
Theorem publish_without_columns (db : nat -> oracle) (finished : list nat)
    (tenant tbl schema : string) :
  BulkInsert.publish db finished [] tenant tbl schema
  = {| BulkInsert.main :=
         ([Print ("Publishing " ++ tbl ++ " to " ++ tenant);
           Print "list index out of range"],
          Raise (RuntimeWarning (IndexError "list index out of range")));
       BulkInsert.tasks := [] |}.
Proof. reflexivity. Qed.

Section Connections.

Lemma insert_connects_once (db : oracle) (chunk : table)
    (tenant schema tbl : string) :
  Eff.count is_connect_call
    (fst (BulkInsert.insert db chunk tenant schema tbl)) = 1.
Proof.
  unfold BulkInsert.insert, BulkInsert.connect.
  generalize (BulkInsert.sql_of schema tbl chunk) as sql.
  generalize (payload chunk) as val. intros val sql. cbv zeta.
  unfold with_, try_except, bind, do_call, print, raise, ret, Eff.count.
  client_answers db; reflexivity.
Qed.

Lemma count_concat_ones (p : event -> bool) (traces : list (list event)) :
  Forall (fun t => Eff.count p t = 1) traces ->
  Eff.count p (List.concat traces) = List.length traces.
Proof.
  unfold Eff.count. induction traces as [|t traces IH]; intros Hall.
  - reflexivity.
  - inversion Hall as [|? ? Ht Hrest]; subst. simpl.
    rewrite filter_app, length_app, Ht, (IH Hrest). reflexivity.
Qed.

Lemma publish_tasks (db : nat -> oracle) (finished : list nat)
    (df : BulkInsert.dataframe) (tenant tbl schema : string)
    (chunks : list table) :
  BulkInsert.chunk_data df 50000 = ([], Ok chunks) ->
  BulkInsert.tasks (BulkInsert.publish db finished df tenant tbl schema)
  = map (fun ic => fst (BulkInsert.insert (db (fst ic)) (snd ic)
                          tenant schema tbl))
        (combine (seq 0 (List.length chunks)) chunks).
Proof.
  intros Hrun. unfold BulkInsert.publish. rewrite Hrun.
  cbn [bind print fst snd app BulkInsert.tasks]. now rewrite map_map.
Qed.

End Connections.

(** X18.  One session per chunk, whatever happens: for a table whose
    columns have one length N, [publish] gives ceil(N / 50000) tasks to
    the pool, every task calls [connect] exactly once, whether its load
    succeeds or fails at any step, and so the run opens ceil(N / 50000)
    connections in all; none for a table without columns or rows. *)
Theorem publish_connects_once_per_chunk (db : nat -> oracle)
    (finished : list nat) (df : BulkInsert.dataframe)
    (tenant tbl schema : string) :
  equal_lengths df ->
  let r := BulkInsert.publish db finished df tenant tbl schema in
  let n := Z.to_nat (ceil_div (Z.of_nat (nrows df)) 50000) in
  List.length (BulkInsert.tasks r) = n
  /\ Forall (fun t => Eff.count is_connect_call t = 1) (BulkInsert.tasks r)
  /\ Eff.count is_connect_call (List.concat (BulkInsert.tasks r)) = n.
Proof.
  intros Heq. cbv zeta.
  enough (H : List.length (BulkInsert.tasks
                (BulkInsert.publish db finished df tenant tbl schema))
              = Z.to_nat (ceil_div (Z.of_nat (nrows df)) 50000)
              /\ Forall (fun t => Eff.count is_connect_call t = 1)
                   (BulkInsert.tasks
                      (BulkInsert.publish db finished df tenant tbl schema))).
  { destruct H as [Hlen Hall]. split; [exact Hlen|]. split; [exact Hall|].
    now rewrite count_concat_ones. }
  destruct df as [|kv df']; [split; [reflexivity | constructor]|].
  set (df := kv :: df') in *.
  destruct (dict_of_table df (nrows df) ltac:(discriminate) Heq)
    as (Hnd & Hne & Hlen & Hrows).
  assert (Hrun : BulkInsert.chunk_data df 50000
                 = ([], Ok (map (chunk_at (Z.to_nat 50000) (dict_of df))
                              (seq 0 (Z.to_nat
                                 (ceil_div (Z.of_nat (nrows df)) 50000)))))).
  { unfold BulkInsert.chunk_data, BulkInsert.to_dict_list.
    rewrite chunk_body_ok by (assumption || reflexivity).
    now rewrite Hrows. }
  rewrite (publish_tasks _ _ _ _ _ _ _ Hrun). split.
  - now rewrite !length_map, length_combine, length_seq, length_map,
      length_seq, Nat.min_id.
  - rewrite Forall_map. apply Forall_forall. intros ic _.
    apply insert_connects_once.
Qed.

Lemma publish_connects_once_per_chunk_witness :
  Eff.count is_connect_call
    (List.concat
       (BulkInsert.tasks
          (BulkInsert.publish (fun _ => db_write_fails) [0] example_table
                              "tenant" "t" "s"))) = 1.
Proof.
  assert (Heq : equal_lengths example_table) by (repeat constructor).
  exact (proj2 (proj2
           (publish_connects_once_per_chunk (fun _ => db_write_fails) [0]
              example_table "tenant" "t" "s" Heq))).
Defined.
